(** * TD3 (garage/tf/algos/td3.py): the optimisation step

    A shallow embedding of [TD3.init_opt] and [TD3.optimize_policy].

    Numbers.  numpy / TensorFlow float arrays are idealised as rationals
    ([Q]); rounding, NaN and infinite array entries are outside the model.
    The one infinity the code itself writes down, the default
    [clip_return = np.inf], is kept (see [ClipReturn]).  Equality of
    computed numbers is [Qeq] ([==]).

    Arrays.  A batch is a list with one entry per sampled transition; an
    array of shape (batch, 1) is a [list Q], an array of shape (batch, d) a
    [list (list Q)].  The variables of one network scope are kept as one
    flat [list Q].

    Collaborators.  The networks, the optimizers and the replay buffer are
    the [Variable]s of [Section TD3]; the session is explicit state. *)

From Stdlib Require Import QArith Qabs Qminmax Lqa Lia List Bool ZArith.
Import ListNotations.
Open Scope Q_scope.

(** ** numpy / TensorFlow primitives *)

Fixpoint zip_with {A B C : Type} (f : A -> B -> C) (l : list A) (l' : list B)
  : list C :=
  match l, l' with
  | a :: t, b :: t' => f a b :: zip_with f t t'
  | _, _ => []
  end.

Definition Qsum (l : list Q) : Q := fold_right Qplus 0 l.

(** [a > b] on floats, as a boolean. *)
Definition Qgtb (a b : Q) : bool := negb (Qle_bool a b).

(** [np.minimum] / [tf.minimum] on two arrays of the same shape. *)
Definition minimum (a b : list Q) : list Q := zip_with Qmin a b.

(** [np.clip(x, lo, hi)] is [minimum(maximum(x, lo), hi)]; a bound of
    [None] is the infinite one, which clips nothing. *)
Definition clip1 (x : Q) (lo hi : option Q) : Q :=
  let y := match lo with Some l => Qmax x l | None => x end in
  match hi with Some h => Qmin y h | None => y end.

Definition clip (xs : list Q) (lo hi : option Q) : list Q :=
  map (fun x => clip1 x lo hi) xs.

(** [tf.reduce_mean]. *)
Definition reduce_mean (l : list Q) : Q :=
  Qsum l / inject_Z (Z.of_nat (length l)).

(** [tf.squared_difference]. *)
Definition squared_difference (y q : Q) : Q := (y - q) * (y - q).

(** [tf.nn.l2_loss(v)] is [sum(v ** 2) / 2]. *)
Definition l2_loss (v : list Q) : Q := Qsum (map (fun x => x * x) v) / 2.

(** [tf.add_n]. *)
Definition add_n (l : list Q) : Q := Qsum l.

(** A terminal flag as the number numpy makes of it in [1.0 - terminals]. *)
Definition flag (b : bool) : Q := if b then 1 else 0.

(** *** Floats with their non-finite values

    The arithmetic of lines 271-276 on values that may be infinite or NaN.
    Finite values stay rationals; what is modelled is where an infinity or
    a NaN appears and how numpy carries it on. *)

Inductive XFloat : Type :=
| XNaN
| XNegInf
| XFin (q : Q)
| XPosInf.

Definition xfinite (x : XFloat) : bool :=
  match x with XFin _ => true | _ => false end.

Definition xisnan (x : XFloat) : bool :=
  match x with XNaN => true | _ => false end.

Definition xneg (x : XFloat) : XFloat :=
  match x with
  | XNaN => XNaN
  | XNegInf => XPosInf
  | XFin q => XFin (- q)
  | XPosInf => XNegInf
  end.

(** [inf + (-inf)] is NaN. *)
Definition xadd (a b : XFloat) : XFloat :=
  match a, b with
  | XNaN, _ | _, XNaN => XNaN
  | XPosInf, XNegInf | XNegInf, XPosInf => XNaN
  | XPosInf, _ | _, XPosInf => XPosInf
  | XNegInf, _ | _, XNegInf => XNegInf
  | XFin x, XFin y => XFin (x + y)
  end.

(** The product of the finite [x] with an infinity of sign [pos]:
    [0 * inf] is NaN. *)
Definition xscale_inf (x : Q) (pos : bool) : XFloat :=
  if Qeq_bool x 0 then XNaN
  else if Bool.eqb (Qle_bool 0 x) pos then XPosInf else XNegInf.

Definition xmul (a b : XFloat) : XFloat :=
  match a, b with
  | XNaN, _ | _, XNaN => XNaN
  | XFin x, XFin y => XFin (x * y)
  | XFin x, XPosInf | XPosInf, XFin x => xscale_inf x true
  | XFin x, XNegInf | XNegInf, XFin x => xscale_inf x false
  | XPosInf, XPosInf | XNegInf, XNegInf => XPosInf
  | XPosInf, XNegInf | XNegInf, XPosInf => XNegInf
  end.

(** [np.minimum] and [np.maximum] propagate NaN. *)
Definition xminimum (a b : XFloat) : XFloat :=
  match a, b with
  | XNaN, _ | _, XNaN => XNaN
  | XNegInf, _ | _, XNegInf => XNegInf
  | XPosInf, x | x, XPosInf => x
  | XFin x, XFin y => XFin (Qmin x y)
  end.

Definition xmaximum (a b : XFloat) : XFloat :=
  match a, b with
  | XNaN, _ | _, XNaN => XNaN
  | XPosInf, _ | _, XPosInf => XPosInf
  | XNegInf, x | x, XNegInf => x
  | XFin x, XFin y => XFin (Qmax x y)
  end.

Definition xclip (x lo hi : XFloat) : XFloat :=
  xminimum (xmaximum x lo) hi.

(** [a <= b]: false as soon as one side is NaN. *)
Definition xle (a b : XFloat) : Prop :=
  match a, b with
  | XNaN, _ | _, XNaN => False
  | XNegInf, _ | _, XPosInf => True
  | XFin x, XFin y => x <= y
  | _, _ => False
  end.

(** The same float, finite values up to [==]. *)
Definition xeq (a b : XFloat) : Prop :=
  match a, b with
  | XNaN, XNaN | XNegInf, XNegInf | XPosInf, XPosInf => True
  | XFin x, XFin y => x == y
  | _, _ => False
  end.

(** ** Data model *)

(** [clip_return]: a float, [np.inf] by default. *)
Inductive ClipReturn : Type :=
| ClipInf
| ClipAt (c : Q).

(** The hyperparameters [optimize_policy] and [init_opt] read from [self]. *)
Record Hyper : Type := {
  tau : Q;
  policy_lr : Q;
  qf_lr : Q;
  policy_weight_decay : Q;
  qf_weight_decay : Q;
  clip_pos_returns : bool;
  clip_return : ClipReturn;
  discount : Q;
  buffer_batch_size : nat;
  input_include_goal : bool
}.

(** One row of what [replay_buffer.sample] returns. *)
Record Transition : Type := {
  observation : list Q;
  action : list Q;
  reward : Q;
  next_observation : list Q;
  terminal : bool;
  goal : list Q
}.

(** The variable scopes of the graph: the three online networks handed to
    the constructor and the three built by [init_opt] under the names
    'target_policy', 'target_qf' and 'target_qf2'. *)
Inductive Scope : Type :=
| Policy | TargetPolicy | Qf | TargetQf | Qf2 | TargetQf2.

Definition Scope_eqb (a b : Scope) : bool :=
  match a, b with
  | Policy, Policy | TargetPolicy, TargetPolicy | Qf, Qf
  | TargetQf, TargetQf | Qf2, Qf2 | TargetQf2, TargetQf2 => true
  | _, _ => false
  end.

(** The values of all variables, by scope. *)
Record Store : Type := {
  policy : list Q;
  target_policy : list Q;
  qf : list Q;
  target_qf : list Q;
  qf2 : list Q;
  target_qf2 : list Q
}.

Definition read (s : Scope) (st : Store) : list Q :=
  match s with
  | Policy => policy st
  | TargetPolicy => target_policy st
  | Qf => qf st
  | TargetQf => target_qf st
  | Qf2 => qf2 st
  | TargetQf2 => target_qf2 st
  end.

Definition write (s : Scope) (v : list Q) (st : Store) : Store :=
  match s with
  | Policy =>
      {| policy := v; target_policy := target_policy st; qf := qf st;
         target_qf := target_qf st; qf2 := qf2 st;
         target_qf2 := target_qf2 st |}
  | TargetPolicy =>
      {| policy := policy st; target_policy := v; qf := qf st;
         target_qf := target_qf st; qf2 := qf2 st;
         target_qf2 := target_qf2 st |}
  | Qf =>
      {| policy := policy st; target_policy := target_policy st; qf := v;
         target_qf := target_qf st; qf2 := qf2 st;
         target_qf2 := target_qf2 st |}
  | TargetQf =>
      {| policy := policy st; target_policy := target_policy st;
         qf := qf st; target_qf := v; qf2 := qf2 st;
         target_qf2 := target_qf2 st |}
  | Qf2 =>
      {| policy := policy st; target_policy := target_policy st;
         qf := qf st; target_qf := target_qf st; qf2 := v;
         target_qf2 := target_qf2 st |}
  | TargetQf2 =>
      {| policy := policy st; target_policy := target_policy st;
         qf := qf st; target_qf := target_qf st; qf2 := qf2 st;
         target_qf2 := v |}
  end.

(** ** Target ops *)

(** One op of a target-update list: [dst <- coeff * src + (1 - coeff) * dst]. *)
Record TargetOp : Type := {
  src : Scope;
  dst : Scope;
  coeff : Q
}.

(** The exponential moving average of one variable toward its online
    counterpart. *)
Definition soft_update (t : Q) (online target : list Q) : list Q :=
  zip_with (fun v tv => t * v + (1 - t) * tv) online target.

(** Modelled from the spec: [get_target_ops] is a method of the parent class
    DDPG, which is not among the sources.  The spec describes it as the
    "Target-Network Synchronizer performing Polyak-averaged soft updates of
    shadow copies of each trainable network", a soft update being the
    "exponential moving average of target network parameters toward online
    parameters" with interpolation parameter [tau].  This is the update half
    of the pair it returns; the init half is [get_target_init_ops]
    below. *)
Definition get_target_ops (variables target_variables : Scope) (t : Q)
  : list TargetOp :=
  [{| src := variables; dst := target_variables; coeff := t |}].

Definition run_target_op (op : TargetOp) (st : Store) : Store :=
  write (dst op) (soft_update (coeff op) (read (src op) st) (read (dst op) st))
        st.

(** Running a callable made of a list of target ops runs each op once. *)
Definition run_target_ops (ops : list TargetOp) (st : Store) : Store :=
  fold_left (fun s op => run_target_op op s) ops st.

(** [init_opt], 'setup_target' scope (lines 140-153). *)
Definition policy_update_ops (hp : Hyper) : list TargetOp :=
  get_target_ops Policy TargetPolicy (tau hp).
Definition qf_update_ops (hp : Hyper) : list TargetOp :=
  get_target_ops Qf TargetQf (tau hp).
Definition qf2_update_ops (hp : Hyper) : list TargetOp :=
  get_target_ops Qf2 TargetQf2 (tau hp).
Definition target_update_op (hp : Hyper) : list TargetOp :=
  policy_update_ops hp ++ qf_update_ops hp.
Definition target_update_op2 (hp : Hyper) : list TargetOp :=
  policy_update_ops hp ++ qf2_update_ops hp.

(** Modelled from the spec: the init half of the pair [get_target_ops]
    returns (parent class DDPG, not among the sources).  The spec calls
    the target networks "shadow copies of each trainable network"; an init
    op makes a target that copy, assigning the online variable to the
    target variable without averaging.  [init_opt] concatenates these ops
    into [target_init_op] and [target_init_op2] (lines 150, 152) and makes
    the callables [f_init_target] and [f_init_target2] of them (lines
    220-221, 230-231). *)
Record InitOp : Type := {
  init_src : Scope;
  init_dst : Scope
}.

Definition get_target_init_ops (variables target_variables : Scope)
  : list InitOp :=
  [{| init_src := variables; init_dst := target_variables |}].

(** The assignment of the online variables to the target ones, variable by
    variable. *)
Definition init_assign (online target : list Q) : list Q :=
  zip_with (fun v _ => v) online target.

Definition run_init_op (op : InitOp) (st : Store) : Store :=
  write (init_dst op)
        (init_assign (read (init_src op) st) (read (init_dst op) st)) st.

Definition run_init_ops (ops : list InitOp) (st : Store) : Store :=
  fold_left (fun s op => run_init_op op s) ops st.

(** [init_opt], lines 141-152, the init halves. *)
Definition policy_init_ops : list InitOp :=
  get_target_init_ops Policy TargetPolicy.
Definition qf_init_ops : list InitOp := get_target_init_ops Qf TargetQf.
Definition qf2_init_ops : list InitOp := get_target_init_ops Qf2 TargetQf2.
Definition target_init_op : list InitOp := policy_init_ops ++ qf_init_ops.
Definition target_init_op2 : list InitOp := policy_init_ops ++ qf2_init_ops.

(** The variables of the graph as [build_net] registers them: a scope and
    the [trainable] flag it was built with. *)
Record VarInfo : Type := {
  var_scope : Scope;
  var_trainable : bool
}.

Definition build_net (trainable : bool) (name : Scope) (g : list VarInfo)
  : list VarInfo :=
  g ++ [{| var_scope := name; var_trainable := trainable |}].

(** The online networks handed to the constructor, built trainable. *)
Definition online_graph : list VarInfo :=
  build_net true Qf2 (build_net true Qf (build_net true Policy [])).

(** [init_opt], lines 132-137: the three target networks. *)
Definition init_opt_graph : list VarInfo :=
  build_net false TargetQf2
    (build_net false TargetQf (build_net false TargetPolicy online_graph)).

(** The graph's collection of trainable variables. *)
Definition trainable_variables (g : list VarInfo) : list Scope :=
  map var_scope (filter var_trainable g).

(** [get_trainable_vars()] of a network: the trainable variables under the
    network's own scope. *)
Definition get_trainable_vars (g : list VarInfo) (owner : Scope)
  : list Scope :=
  filter (Scope_eqb owner) (trainable_variables g).

Definition target_scopes : list Scope := [TargetPolicy; TargetQf; TargetQf2].

(** The online network a target network shadows. *)
Definition online_of (t : Scope) : Scope :=
  match t with
  | TargetPolicy => Policy
  | TargetQf => Qf
  | TargetQf2 => Qf2
  | s => s
  end.

(** *** Lines 271-276 on floats *)

Definition clip_return_float (h : Hyper) : XFloat :=
  match clip_return h with ClipInf => XPosInf | ClipAt c => XFin c end.

Definition clip_range_float (h : Hyper) : XFloat * XFloat :=
  (xneg (clip_return_float h),
   if clip_pos_returns h then XFin 0 else clip_return_float h).

Definition compute_ys_float (h : Hyper) (rewards : list XFloat)
    (terminals : list bool) (target_qvals target_q2vals : list XFloat)
  : list XFloat :=
  let target_qvals := zip_with xminimum target_qvals target_q2vals in
  map (fun x => xclip x (fst (clip_range_float h)) (snd (clip_range_float h)))
      (zip_with xadd rewards
         (zip_with xmul
            (map (fun t => xmul (XFin (1 - flag t)) (XFin (discount h)))
                 terminals)
            target_qvals)).


(** One row of the arrays lines 271-276 work on. *)
Record XRow : Type := {
  x_reward : XFloat;
  x_terminal : bool;
  x_qval : XFloat;
  x_q2val : XFloat
}.

Definition compute_ys_rows (h : Hyper) (rows : list XRow) : list XFloat :=
  compute_ys_float h (map x_reward rows) (map x_terminal rows)
                   (map x_qval rows) (map x_q2val rows).

(** The target of one row. *)
Definition x_target (h : Hyper) (row : XRow) : XFloat :=
  xclip (xadd (x_reward row)
              (xmul (xmul (XFin (1 - flag (x_terminal row)))
                          (XFin (discount h)))
                    (xminimum (x_qval row) (x_q2val row))))
        (fst (clip_range_float h)) (snd (clip_range_float h)).

(** The loss of one critic alone: the mean squared error of its
    predictions against the targets (one summand of lines 196-197). *)
Definition critic_loss (y predictions : list Q) : Q :=
  reduce_mean (zip_with squared_difference y predictions).

(** [init_opt], lines 188-211: the [var_list] of each optimizer. *)
Definition policy_train_var_list : list Scope := [Policy].
Definition qf_train_var_list : list Scope := [Qf].
Definition qf2_train_var_list : list Scope := [Qf2].

(** ** The algorithm *)

Section TD3.

(** The replay buffer (with whatever randomness it draws on), the slots
    an optimizer keeps between steps, and the [samples_data] argument the
    runner passes in. *)
Context {B Slots SamplesData : Type}.

(** [replay_buffer.sample(batch_size) -> transitions]. *)
Variable rb_sample : B -> nat -> list Transition * B.

(** The forward passes of the three architectures, as functions of the
    variables of a scope: [build_net] and [get_action_sym] /
    [get_qval_sym] evaluate the same architecture on the target and on
    the online variables. *)
Variable policy_net : list Q -> list Q -> list Q.
Variable qf_net : list Q -> list Q -> list Q -> Q.
Variable qf2_net : list Q -> list Q -> list Q -> Q.

(** [get_regularizable_vars]: the tensors of a network that take part in
    weight decay. *)
Variable policy_regularizable_vars : list Q -> list (list Q).
Variable qf_regularizable_vars : list Q -> list (list Q).

(** An optimizer ([tf.train.AdamOptimizer] by default): from a learning
    rate, its slots, the loss as a function of the variables, the
    [var_list] and the current values, the new slots and the new value
    of each variable it was given. *)
Definition Optimizer : Type :=
  Q -> Slots -> (Store -> Q) -> list Scope -> Store ->
  Slots * (Scope -> list Q).

Variable policy_optimizer : Optimizer.
Variable qf_optimizer : Optimizer.

Variable hp : Hyper.

(** [Optimizer.minimize(loss, var_list)]: one step, assigned to the
    variables of [var_list] and to no other. *)
Definition minimize (opt : Optimizer) (lr : Q) (sl : Slots)
    (loss : Store -> Q) (var_list : list Scope) (st : Store)
  : Slots * Store :=
  let '(sl', upd) := opt lr sl loss var_list st in
  (sl', fold_left (fun s v => write v (upd v) s) var_list st).

(** *** Tensors of the graph, as functions of the variables and feeds *)

Definition get_action_sym (st : Store) (obs : list (list Q))
  : list (list Q) :=
  map (policy_net (policy st)) obs.

Definition get_qval_sym (st : Store) (obs actions : list (list Q))
  : list Q :=
  zip_with (qf_net (qf st)) obs actions.

Definition get_q2val_sym (st : Store) (obs actions : list (list Q))
  : list Q :=
  zip_with (qf2_net (qf2 st)) obs actions.

(** Lines 172-185. *)
Definition action_loss (st : Store) (obs : list (list Q)) : Q :=
  let next_action := get_action_sym st obs in
  let qval := get_qval_sym st obs next_action in
  let q2val := get_q2val_sym st obs next_action in
  let next_qval := minimum qval q2val in
  let action_loss := - reduce_mean next_qval in
  if Qgtb (policy_weight_decay hp) 0 then
    let policy_reg :=
      policy_weight_decay hp
      * add_n (map l2_loss (policy_regularizable_vars (policy st))) in
    action_loss + policy_reg
  else action_loss.

(** Lines 193-203. *)
Definition qval_loss (st : Store) (y : list Q) (obs actions : list (list Q))
  : Q :=
  let qval := get_qval_sym st obs actions in
  let q2val := get_q2val_sym st obs actions in
  let qval_loss :=
    reduce_mean (zip_with squared_difference y qval)
    + reduce_mean (zip_with squared_difference y q2val) in
  if Qgtb (qf_weight_decay hp) 0 then
    let qf_reg :=
      qf_weight_decay hp
      * add_n (map l2_loss (qf_regularizable_vars (qf st))) in
    qval_loss + qf_reg
  else qval_loss.

(** *** The session *)

Record Session : Type := {
  vars : Store;
  policy_slots : Slots;
  qf_slots : Slots;
  qf2_slots : Slots
}.

(** The calls [optimize_policy] makes on its collaborators and on the
    session, with their arguments: a ghost trace. *)
Inductive Call : Type :=
| CSample (batch_size : nat)
| CTargetPolicy (next_inputs : list (list Q))
| CTargetQf (next_inputs target_actions : list (list Q))
| CTargetQf2 (next_inputs target_actions : list (list Q))
| CTrainQf (ys : list Q) (inputs actions : list (list Q))
| CTrainQf2 (ys : list Q) (inputs actions : list (list Q))
| CTrainPolicy (inputs : list (list Q))
| CUpdateTarget
| CUpdateTarget2.

Record Algo : Type := {
  sess : Session;
  replay_buffer : B;
  calls : list Call
}.

(** Session callables ([make_callable]).  A fetched loss or prediction is
    the one of the variables the call starts from. *)

Definition run_train_policy (s : Session) (obs : list (list Q))
  : Q * Session :=
  let '(sl, st) :=
    minimize policy_optimizer (policy_lr hp) (policy_slots s)
             (fun w => action_loss w obs) policy_train_var_list (vars s) in
  (action_loss (vars s) obs,
   {| vars := st; policy_slots := sl; qf_slots := qf_slots s;
      qf2_slots := qf2_slots s |}).

Definition run_train_qf (s : Session) (y : list Q)
    (obs actions : list (list Q)) : (Q * list Q) * Session :=
  let '(sl, st) :=
    minimize qf_optimizer (qf_lr hp) (qf_slots s)
             (fun w => qval_loss w y obs actions) qf_train_var_list
             (vars s) in
  ((qval_loss (vars s) y obs actions, get_qval_sym (vars s) obs actions),
   {| vars := st; policy_slots := policy_slots s; qf_slots := sl;
      qf2_slots := qf2_slots s |}).

Definition run_train_qf2 (s : Session) (y : list Q)
    (obs actions : list (list Q)) : (Q * list Q) * Session :=
  let '(sl, st) :=
    minimize qf_optimizer (qf_lr hp) (qf2_slots s)
             (fun w => qval_loss w y obs actions) qf2_train_var_list
             (vars s) in
  ((qval_loss (vars s) y obs actions, get_q2val_sym (vars s) obs actions),
   {| vars := st; policy_slots := policy_slots s; qf_slots := qf_slots s;
      qf2_slots := sl |}).

Definition run_update (ops : list TargetOp) (s : Session) : Session :=
  {| vars := run_target_ops ops (vars s); policy_slots := policy_slots s;
     qf_slots := qf_slots s; qf2_slots := qf2_slots s |}.

Definition run_init (ops : list InitOp) (s : Session) : Session :=
  {| vars := run_init_ops ops (vars s); policy_slots := policy_slots s;
     qf_slots := qf_slots s; qf2_slots := qf2_slots s |}.

(** The seven session callables [init_opt] makes (lines 213-234), with
    what they are fed. *)
Inductive Callable : Type :=
| F_train_policy (obs : list (list Q))
| F_train_qf (y : list Q) (obs actions : list (list Q))
| F_init_target
| F_update_target
| F_train_qf2 (y : list Q) (obs actions : list (list Q))
| F_init_target2
| F_update_target2.

Definition run_callable (c : Callable) (s : Session) : Session :=
  match c with
  | F_train_policy obs => snd (run_train_policy s obs)
  | F_train_qf y obs actions => snd (run_train_qf s y obs actions)
  | F_init_target => run_init target_init_op s
  | F_update_target => run_update (target_update_op hp) s
  | F_train_qf2 y obs actions => snd (run_train_qf2 s y obs actions)
  | F_init_target2 => run_init target_init_op2 s
  | F_update_target2 => run_update (target_update_op2 hp) s
  end.

(** *** The state monad of one optimisation step *)

Definition M (A : Type) : Type := Algo -> A * Algo.

Definition ret {A : Type} (a : A) : M A := fun s => (a, s).

Definition bind {A C : Type} (m : M A) (k : A -> M C) : M C :=
  fun s => let '(a, s') := m s in k a s'.

Definition log (c : Call) (a : Algo) : Algo :=
  {| sess := sess a; replay_buffer := replay_buffer a;
     calls := calls a ++ [c] |}.

Definition with_sess (s : Session) (a : Algo) : Algo :=
  {| sess := s; replay_buffer := replay_buffer a; calls := calls a |}.

Definition sample (n : nat) : M (list Transition) :=
  fun a =>
    let '(ts, b) := rb_sample (replay_buffer a) n in
    (ts, log (CSample n)
           {| sess := sess a; replay_buffer := b; calls := calls a |}).

Definition target_policy_f_prob_online (next_inputs : list (list Q))
  : M (list (list Q)) :=
  fun a =>
    (map (policy_net (target_policy (vars (sess a)))) next_inputs,
     log (CTargetPolicy next_inputs) a).

Definition target_qf_f_prob_online (next_inputs acts : list (list Q))
  : M (list Q) :=
  fun a =>
    (zip_with (qf_net (target_qf (vars (sess a)))) next_inputs acts,
     log (CTargetQf next_inputs acts) a).

Definition target_qf2_f_prob_online (next_inputs acts : list (list Q))
  : M (list Q) :=
  fun a =>
    (zip_with (qf2_net (target_qf2 (vars (sess a)))) next_inputs acts,
     log (CTargetQf2 next_inputs acts) a).

Definition f_train_qf (ys : list Q) (inputs actions : list (list Q))
  : M (Q * list Q) :=
  fun a =>
    let '(r, s) := run_train_qf (sess a) ys inputs actions in
    (r, log (CTrainQf ys inputs actions) (with_sess s a)).

Definition f_train_qf2 (ys : list Q) (inputs actions : list (list Q))
  : M (Q * list Q) :=
  fun a =>
    let '(r, s) := run_train_qf2 (sess a) ys inputs actions in
    (r, log (CTrainQf2 ys inputs actions) (with_sess s a)).

Definition f_train_policy (inputs : list (list Q)) : M Q :=
  fun a =>
    let '(r, s) := run_train_policy (sess a) inputs in
    (r, log (CTrainPolicy inputs) (with_sess s a)).

Definition f_update_target : M unit :=
  fun a =>
    (tt, log CUpdateTarget
           (with_sess (run_update (target_update_op hp) (sess a)) a)).

Definition f_update_target2 : M unit :=
  fun a =>
    (tt, log CUpdateTarget2
           (with_sess (run_update (target_update_op2 hp) (sess a)) a)).

Notation "x <- m ;; k" := (bind m (fun x => k))
  (at level 61, m at next level, right associativity).
Notation "' p <- m ;; k" := (bind m (fun x => let p := x in k))
  (at level 61, p pattern, m at next level, right associativity).
Notation "m ;; k" := (bind m (fun _ => k))
  (at level 61, right associativity).

(** Lines 272-273. *)
Definition clip_range : option Q * option Q :=
  (match clip_return hp with ClipInf => None | ClipAt c => Some (- c) end,
   if clip_pos_returns hp then Some 0
   else match clip_return hp with ClipInf => None | ClipAt c => Some c end).

(** Lines 266-276, given what the three target networks returned. *)
Definition compute_ys (rewards : list Q) (terminals : list bool)
    (target_qvals target_q2vals : list Q) : list Q :=
  let target_qvals := minimum target_qvals target_q2vals in
  clip
    (zip_with Qplus rewards
       (zip_with Qmult
          (map (fun t => (1 - flag t) * discount hp) terminals)
          target_qvals))
    (fst clip_range) (snd clip_range).

(** Lines 236-290. *)
Definition optimize_policy (itr : nat) (samples_data : SamplesData)
  : M (Q * list Q * list Q * Q) :=
  transitions <- sample (buffer_batch_size hp) ;;
  let observations := map observation transitions in
  let rewards := map reward transitions in
  let actions := map action transitions in
  let next_observations := map next_observation transitions in
  let terminals := map terminal transitions in
  let next_inputs :=
    if input_include_goal hp
    then zip_with (@app Q) next_observations (map goal transitions)
    else next_observations in
  let inputs :=
    if input_include_goal hp
    then zip_with (@app Q) observations (map goal transitions)
    else observations in
  target_actions <- target_policy_f_prob_online next_inputs ;;
  target_qvals <- target_qf_f_prob_online next_inputs target_actions ;;
  target_q2vals <- target_qf2_f_prob_online next_inputs target_actions ;;
  let ys := compute_ys rewards terminals target_qvals target_q2vals in
  ' (qval_loss, qval) <- f_train_qf ys inputs actions ;;
  ' (q2val_loss, q2val) <- f_train_qf2 ys inputs actions ;;
  let qval :=
    if Qeq_bool q2val_loss (Qmin qval_loss q2val_loss)
    then q2val else qval in
  let qval_loss := Qmin qval_loss q2val_loss in
  action_loss <- f_train_policy inputs ;;
  f_update_target ;;
  f_update_target2 ;;
  ret (qval_loss, ys, qval, action_loss).

End TD3.

(** ** A small concrete instance

    One-weight networks, a two-transition replay buffer read round-robin
    and a one-line optimizer, to run the step on. *)

Module Toy.

Definition rb_sample (b : list Transition) (n : nat)
  : list Transition * list Transition :=
  (firstn n b, skipn n b ++ firstn n b).

Definition policy_net (w x : list Q) : list Q := [hd 0 w * hd 0 x].
Definition qf_net (w x a : list Q) : Q := hd 0 w * hd 0 x + hd 0 a.
Definition qf2_net (w x a : list Q) : Q := hd 0 w * hd 0 a - hd 0 x.
Definition regularizable_vars (w : list Q) : list (list Q) := [w].

(** Moves every weight it is given against the sign-free loss value and
    counts its steps in its slot. *)
Definition descent : @Optimizer nat :=
  fun lr sl loss var_list st =>
    (S sl, fun v => map (fun x => x - lr * loss st) (read v st)).

Definition hyper (c : ClipReturn) (pos : bool) : Hyper :=
  {| tau := 1 # 4; policy_lr := 1 # 2; qf_lr := 1 # 2;
     policy_weight_decay := 0; qf_weight_decay := 0;
     clip_pos_returns := pos; clip_return := c; discount := 1 # 2;
     buffer_batch_size := 2; input_include_goal := false |}.

Definition buffer : list Transition :=
  [ {| observation := [1]; action := [1]; reward := 3;
       next_observation := [2]; terminal := false; goal := [] |};
    {| observation := [2]; action := [0]; reward := -4;
       next_observation := [1]; terminal := true; goal := [] |} ].

Definition store0 : Store :=
  {| policy := [1]; target_policy := [0]; qf := [1]; target_qf := [2];
     qf2 := [1]; target_qf2 := [4] |}.

Definition algo0 : @Algo (list Transition) nat :=
  {| sess := {| vars := store0; policy_slots := O; qf_slots := O;
                qf2_slots := O |};
     replay_buffer := buffer;
     calls := [] |}.

Definition step (h : Hyper) (itr : nat)
  : @M (list Transition) nat (Q * list Q * list Q * Q) :=
  optimize_policy rb_sample policy_net qf_net qf2_net regularizable_vars
                  regularizable_vars descent descent h itr tt.

End Toy.

(** ** What the claims speak of *)

(** Weights after [n] soft updates toward fixed online weights. *)
Fixpoint repeat_soft_update (n : nat) (t : Q) (online target : list Q)
  : list Q :=
  match n with
  | O => target
  | S k => soft_update t online (repeat_soft_update k t online target)
  end.

(** The variables after running a target-update callable [n] times, no
    training call in between. *)
Fixpoint repeat_update (n : nat) (ops : list TargetOp) (st : Store) : Store :=
  match n with
  | O => st
  | S k => run_target_ops ops (repeat_update k ops st)
  end.

(** Distance between the [i]-th target weight and its online counterpart. *)
Definition weight_dist (online target : list Q) (i : nat) : Q :=
  Qabs (nth i target 0 - nth i online 0).

Fixpoint Qpow (r : Q) (n : nat) : Q :=
  match n with
  | O => 1
  | S k => r * Qpow r k
  end.

(** How many ops of a callable assign to the variables of scope [s]. *)
Definition assignments_to (s : Scope) (ops : list TargetOp) : nat :=
  length (filter (fun op => Scope_eqb (dst op) s) ops).

(** The configured clip range, as a predicate on one target value. *)
Definition in_clip_range (h : Hyper) (y : Q) : Prop :=
  match clip_return h with
  | ClipInf => if clip_pos_returns h then y <= 0 else True
  | ClipAt c => - c <= y /\ y <= (if clip_pos_returns h then 0 else c)
  end.


(** Pointwise [==] of two arrays. *)
Definition Qeq_list (a b : list Q) : Prop := Forall2 Qeq a b.

Definition is_train_policy (c : Call) : bool :=
  match c with CTrainPolicy _ => true | _ => false end.

(** The calls a step appended to the trace it started from. *)
Definition new_calls (before after : list Call) : list Call :=
  skipn (length before) after.

(** The [y] each critic training call was fed, by the critic trained. *)
Definition critic_feeds (cs : list Call) : list (Scope * list Q) :=
  flat_map (fun c => match c with
                     | CTrainQf y _ _ => [(Qf, y)]
                     | CTrainQf2 y _ _ => [(Qf2, y)]
                     | _ => []
                     end) cs.

(** The phases of a training step, in the words of the spec. *)
Inductive Phase : Type :=
| PSample | PComputeTargets | PUpdateCritics | PUpdateActor | PSoftUpdate.

Definition phase_of (c : Call) : Phase :=
  match c with
  | CSample _ => PSample
  | CTargetPolicy _ | CTargetQf _ _ | CTargetQf2 _ _ => PComputeTargets
  | CTrainQf _ _ _ | CTrainQf2 _ _ _ => PUpdateCritics
  | CTrainPolicy _ => PUpdateActor
  | CUpdateTarget | CUpdateTarget2 => PSoftUpdate
  end.

(** The variables with the two online critics exchanged. *)
Definition swap_critics (st : Store) : Store :=
  {| policy := policy st; target_policy := target_policy st;
     qf := qf2 st; target_qf := target_qf st;
     qf2 := qf st; target_qf2 := target_qf2 st |}.

(** The components of what [optimize_policy] returns. *)
Definition ret_qval_loss (r : Q * list Q * list Q * Q) : Q :=
  let '(qval_loss, _, _, _) := r in qval_loss.
Definition ret_ys (r : Q * list Q * list Q * Q) : list Q :=
  let '(_, ys, _, _) := r in ys.
Definition ret_qval (r : Q * list Q * list Q * Q) : list Q :=
  let '(_, _, qval, _) := r in qval.
Definition ret_action_loss (r : Q * list Q * list Q * Q) : Q :=
  let '(_, _, _, action_loss) := r in action_loss.

(** What a callable may do to a target variable. *)
Inductive TargetEffect : Type :=
| Untouched
| Initialised
| SoftUpdated.

(** The target ops each callable holds for the target scope [t]: none for
    the training callables, the init ops for the init callables, the
    soft-update ops for the update callables. *)
Definition target_effect (c : Callable) (t : Scope) : TargetEffect :=
  match c, t with
  | F_init_target, (TargetPolicy | TargetQf) => Initialised
  | F_init_target2, (TargetPolicy | TargetQf2) => Initialised
  | F_update_target, (TargetPolicy | TargetQf) => SoftUpdated
  | F_update_target2, (TargetPolicy | TargetQf2) => SoftUpdated
  | _, _ => Untouched
  end.

Definition apply_effect (e : TargetEffect) (t : Q) (online target : list Q)
  : list Q :=
  match e with
  | Untouched => target
  | Initialised => init_assign online target
  | SoftUpdated => soft_update t online target
  end.

(** Pointwise [xeq] of two float arrays. *)
Definition xeq_list (a b : list XFloat) : Prop := Forall2 xeq a b.

Section Facts.

Context {B Slots SamplesData : Type}.
Variable rb_sample : B -> nat -> list Transition * B.
Variable policy_net : list Q -> list Q -> list Q.
Variable qf_net : list Q -> list Q -> list Q -> Q.
Variable qf2_net : list Q -> list Q -> list Q -> Q.
Variable policy_regularizable_vars : list Q -> list (list Q).
Variable qf_regularizable_vars : list Q -> list (list Q).
Variable policy_optimizer : @Optimizer Slots.
Variable qf_optimizer : @Optimizer Slots.
Variable hp : Hyper.

(** The row fed to the networks for one transition (lines 258-264). *)
Definition input_of (tr : Transition) : list Q :=
  if input_include_goal hp then observation tr ++ goal tr
  else observation tr.

Definition next_input_of (tr : Transition) : list Q :=
  if input_include_goal hp then next_observation tr ++ goal tr
  else next_observation tr.

(** The bootstrapped target of one transition, in the words of the spec:
    clip(reward + (1 - terminal) * discount * min(targetQ1(s', a'),
    targetQ2(s', a')), lower, upper), a' the target policy's action at
    s'. *)
Definition td_target (st : Store) (tr : Transition) : Q :=
  let s' := next_input_of tr in
  let a' := policy_net (target_policy st) s' in
  clip1 (reward tr
         + (1 - flag (terminal tr)) * discount hp
           * Qmin (qf_net (target_qf st) s' a')
                  (qf2_net (target_qf2 st) s' a'))
        (fst (clip_range hp)) (snd (clip_range hp)).

(** The mean over the batch of min(Q1(s, pi(s)), Q2(s, pi(s))) with the
    online critics. *)
Definition actor_objective (st : Store) (obs : list (list Q)) : Q :=
  reduce_mean
    (map (fun s => Qmin (qf_net (qf st) s (policy_net (policy st) s))
                        (qf2_net (qf2 st) s (policy_net (policy st) s)))
         obs).

Definition policy_weight_decay_term (st : Store) : Q :=
  if Qgtb (policy_weight_decay hp) 0
  then policy_weight_decay hp
       * add_n (map l2_loss (policy_regularizable_vars (policy st)))
  else 0.

(** The intermediate sessions of one call of [optimize_policy] on [a]. *)
Definition batch_of (a : @Algo B Slots) : list Transition :=
  fst (rb_sample (replay_buffer a) (buffer_batch_size hp)).

Definition ys_of (a : @Algo B Slots) : list Q :=
  map (td_target (vars (sess a))) (batch_of a).

Definition after_qf (a : @Algo B Slots) : @Session Slots :=
  snd (run_train_qf qf_net qf2_net qf_regularizable_vars qf_optimizer hp
         (sess a) (ys_of a) (map input_of (batch_of a))
         (map action (batch_of a))).

Definition after_qf2 (a : @Algo B Slots) : @Session Slots :=
  snd (run_train_qf2 qf_net qf2_net qf_regularizable_vars qf_optimizer hp
         (after_qf a) (ys_of a) (map input_of (batch_of a))
         (map action (batch_of a))).

Definition after_policy (a : @Algo B Slots) : @Session Slots :=
  snd (run_train_policy policy_net qf_net qf2_net
         policy_regularizable_vars policy_optimizer hp
         (after_qf2 a) (map input_of (batch_of a))).

Definition step (itr : nat) (sd : SamplesData)
  : @M B Slots (Q * list Q * list Q * Q) :=
  optimize_policy rb_sample policy_net qf_net qf2_net
    policy_regularizable_vars qf_regularizable_vars policy_optimizer
    qf_optimizer hp itr sd.

(** What the two critic calls and the actor call fetch. *)
Definition qf_fetch (a : @Algo B Slots) : Q * list Q :=
  fst (run_train_qf qf_net qf2_net qf_regularizable_vars qf_optimizer hp
         (sess a) (ys_of a) (map input_of (batch_of a))
         (map action (batch_of a))).

Definition qf2_fetch (a : @Algo B Slots) : Q * list Q :=
  fst (run_train_qf2 qf_net qf2_net qf_regularizable_vars qf_optimizer hp
         (after_qf a) (ys_of a) (map input_of (batch_of a))
         (map action (batch_of a))).

Definition policy_fetch (a : @Algo B Slots) : Q :=
  fst (run_train_policy policy_net qf_net qf2_net
         policy_regularizable_vars policy_optimizer hp
         (after_qf2 a) (map input_of (batch_of a))).

Definition after_update (a : @Algo B Slots) : @Session Slots :=
  run_update (target_update_op hp) (after_policy a).

Definition after_step (a : @Algo B Slots) : @Session Slots :=
  run_update (target_update_op2 hp) (after_update a).

(** The calls of one step, in order. *)
Definition step_calls (a : @Algo B Slots) : list Call :=
  let ts := batch_of a in
  let next_inputs := map next_input_of ts in
  let target_actions :=
    map (policy_net (target_policy (vars (sess a)))) next_inputs in
  [ CSample (buffer_batch_size hp);
    CTargetPolicy next_inputs;
    CTargetQf next_inputs target_actions;
    CTargetQf2 next_inputs target_actions;
    CTrainQf (ys_of a) (map input_of ts) (map action ts);
    CTrainQf2 (ys_of a) (map input_of ts) (map action ts);
    CTrainPolicy (map input_of ts);
    CUpdateTarget;
    CUpdateTarget2 ].

(** The bootstrapped target of one transition before [np.clip] (line
    275). *)
Definition raw_target (st : Store) (tr : Transition) : Q :=
  let s' := next_input_of tr in
  let a' := policy_net (target_policy st) s' in
  reward tr
  + (1 - flag (terminal tr)) * discount hp
    * Qmin (qf_net (target_qf st) s' a') (qf2_net (target_qf2 st) s' a').

(** The target either target critic would give on its own. *)
Definition qf_target (st : Store) (tr : Transition) : Q :=
  let s' := next_input_of tr in
  let a' := policy_net (target_policy st) s' in
  clip1 (reward tr
         + (1 - flag (terminal tr)) * discount hp
           * qf_net (target_qf st) s' a')
        (fst (clip_range hp)) (snd (clip_range hp)).

Definition qf2_target (st : Store) (tr : Transition) : Q :=
  let s' := next_input_of tr in
  let a' := policy_net (target_policy st) s' in
  clip1 (reward tr
         + (1 - flag (terminal tr)) * discount hp
           * qf2_net (target_qf2 st) s' a')
        (fst (clip_range hp)) (snd (clip_range hp)).

(** The weight-decay term of lines 198-203, over the variables [w]. *)
Definition qf_weight_decay_term (w : list Q) : Q :=
  if Qgtb (qf_weight_decay hp) 0
  then qf_weight_decay hp * add_n (map l2_loss (qf_regularizable_vars w))
  else 0.

(** [n] calls of [optimize_policy] in a row, the [k]-th with [itr = k]. *)
Fixpoint train_steps (n : nat) (sd : SamplesData) (a : @Algo B Slots)
  : @Algo B Slots :=
  match n with
  | O => a
  | S k => snd (step k sd (train_steps k sd a))
  end.

(** *** Lists *)

Lemma zip_with_map {A X Y Z : Type} (f : X -> Y -> Z) (g : A -> X)
    (h : A -> Y) (l : list A) :
  zip_with f (map g l) (map h l) = map (fun a => f (g a) (h a)) l.
Proof.
  induction l as [|a l IH]; simpl; [reflexivity|].
  now rewrite IH.
Qed.

Lemma zip_with_map_l {A X Y Z : Type} (f : X -> Y -> Z) (g : A -> X)
    (l : list A) (l' : list Y) :
  zip_with f (map g l) l' = zip_with (fun a y => f (g a) y) l l'.
Proof.
  revert l'; induction l as [|a l IH]; intros [|y l']; simpl; try reflexivity.
  now rewrite IH.
Qed.

Lemma zip_with_self_map {A Y Z : Type} (f : A -> Y -> Z) (h : A -> Y)
    (l : list A) :
  zip_with f l (map h l) = map (fun a => f a (h a)) l.
Proof.
  induction l as [|a l IH]; simpl; [reflexivity|].
  now rewrite IH.
Qed.

Lemma inputs_eq (ts : list Transition) :
  (if input_include_goal hp
   then zip_with (@app Q) (map observation ts) (map goal ts)
   else map observation ts) = map input_of ts.
Proof.
  unfold input_of. destruct (input_include_goal hp).
  - apply zip_with_map.
  - reflexivity.
Qed.

Lemma next_inputs_eq (ts : list Transition) :
  (if input_include_goal hp
   then zip_with (@app Q) (map next_observation ts) (map goal ts)
   else map next_observation ts) = map next_input_of ts.
Proof.
  unfold next_input_of. destruct (input_include_goal hp).
  - apply zip_with_map.
  - reflexivity.
Qed.

(** The batch computation of lines 266-276 is the per-transition target. *)
Lemma compute_ys_td_target (st : Store) (ts : list Transition) :
  let next_inputs := map next_input_of ts in
  let target_actions := map (policy_net (target_policy st)) next_inputs in
  compute_ys hp (map reward ts) (map terminal ts)
    (zip_with (qf_net (target_qf st)) next_inputs target_actions)
    (zip_with (qf2_net (target_qf2 st)) next_inputs target_actions)
  = map (td_target st) ts.
Proof.
  cbv zeta. unfold compute_ys, minimum, clip, td_target.
  induction ts as [|tr ts IH]; simpl; [reflexivity|].
  f_equal. apply IH.
Qed.

(** *** One call of [optimize_policy], unfolded *)

Lemma step_run (itr : nat) (sd : SamplesData) (a : @Algo B Slots) :
  step itr sd a =
  ((Qmin (fst (qf_fetch a)) (fst (qf2_fetch a)),
    ys_of a,
    if Qeq_bool (fst (qf2_fetch a))
                (Qmin (fst (qf_fetch a)) (fst (qf2_fetch a)))
    then snd (qf2_fetch a) else snd (qf_fetch a),
    policy_fetch a),
   {| sess := after_step a;
      replay_buffer :=
        snd (rb_sample (replay_buffer a) (buffer_batch_size hp));
      calls := calls a ++ step_calls a |}).
Proof.
  unfold step, optimize_policy, bind, sample.
  unfold step_calls, after_step, after_update, after_policy, policy_fetch,
    qf2_fetch, after_qf2, qf_fetch, after_qf, ys_of, batch_of.
  destruct (rb_sample (replay_buffer a) (buffer_batch_size hp)) as [ts b].
  cbn [fst snd].
  rewrite inputs_eq, next_inputs_eq.
  unfold target_policy_f_prob_online, target_qf_f_prob_online,
    target_qf2_f_prob_online.
  cbn [log sess replay_buffer calls vars].
  rewrite compute_ys_td_target.
  unfold f_train_qf. cbn [log sess with_sess replay_buffer calls].
  destruct (run_train_qf _ _ _ _ _ (sess a) _ _ _) as [[l1 q1] s1].
  unfold f_train_qf2. cbn [log sess with_sess replay_buffer calls fst snd].
  destruct (run_train_qf2 _ _ _ _ _ s1 _ _ _) as [[l2 q2] s2].
  unfold f_train_policy.
  cbn [log sess with_sess replay_buffer calls fst snd].
  destruct (run_train_policy _ _ _ _ _ _ s2 _) as [l3 s3].
  unfold f_update_target, f_update_target2, ret, log, with_sess.
  cbn [sess replay_buffer calls fst snd].
  repeat rewrite <- app_assoc. reflexivity.
Qed.

(** *** What each callable does to the variables *)

Lemma run_train_policy_vars (s : @Session Slots) (obs : list (list Q)) :
  vars (snd (run_train_policy policy_net qf_net qf2_net
               policy_regularizable_vars policy_optimizer hp s obs))
  = write Policy
      (snd (policy_optimizer (policy_lr hp) (policy_slots s)
              (fun w => action_loss policy_net qf_net qf2_net
                          policy_regularizable_vars hp w obs)
              policy_train_var_list (vars s)) Policy)
      (vars s).
Proof.
  unfold run_train_policy, minimize.
  destruct (policy_optimizer _ _ _ _ _) as [sl upd]. reflexivity.
Qed.

Lemma run_train_qf_vars (s : @Session Slots) (y : list Q)
    (obs acts : list (list Q)) :
  vars (snd (run_train_qf qf_net qf2_net qf_regularizable_vars
               qf_optimizer hp s y obs acts))
  = write Qf
      (snd (qf_optimizer (qf_lr hp) (qf_slots s)
              (fun w => qval_loss qf_net qf2_net qf_regularizable_vars hp
                          w y obs acts)
              qf_train_var_list (vars s)) Qf)
      (vars s).
Proof.
  unfold run_train_qf, minimize.
  destruct (qf_optimizer _ _ _ _ _) as [sl upd]. reflexivity.
Qed.

Lemma run_train_qf2_vars (s : @Session Slots) (y : list Q)
    (obs acts : list (list Q)) :
  vars (snd (run_train_qf2 qf_net qf2_net qf_regularizable_vars
               qf_optimizer hp s y obs acts))
  = write Qf2
      (snd (qf_optimizer (qf_lr hp) (qf2_slots s)
              (fun w => qval_loss qf_net qf2_net qf_regularizable_vars hp
                          w y obs acts)
              qf2_train_var_list (vars s)) Qf2)
      (vars s).
Proof.
  unfold run_train_qf2, minimize.
  destruct (qf_optimizer _ _ _ _ _) as [sl upd]. reflexivity.
Qed.

Lemma read_write_other (s v : Scope) (x : list Q) (st : Store) :
  Scope_eqb s v = false -> read s (write v x st) = read s st.
Proof. destruct s, v; simpl; intros H; try discriminate H; reflexivity. Qed.

(** One step of an optimizer leaves every variable outside its
    [var_list] as it was. *)
Lemma minimize_frame (opt : @Optimizer Slots) (lr : Q) (sl : Slots)
    (loss : Store -> Q) (var_list : list Scope) (st : Store) (s : Scope) :
  existsb (Scope_eqb s) var_list = false ->
  read s (snd (minimize opt lr sl loss var_list st)) = read s st.
Proof.
  unfold minimize. destruct (opt lr sl loss var_list st) as [sl' upd].
  cbn [snd]. revert st.
  induction var_list as [|v l IH]; intros st H; simpl in *; [reflexivity|].
  apply orb_false_iff in H. destruct H as [Hv Hl].
  rewrite (IH _ Hl). now apply read_write_other.
Qed.

(** The three training calls leave the target variables as they were. *)
Lemma after_policy_targets (a : @Algo B Slots) :
  target_policy (vars (after_policy a)) = target_policy (vars (sess a))
  /\ target_qf (vars (after_policy a)) = target_qf (vars (sess a))
  /\ target_qf2 (vars (after_policy a)) = target_qf2 (vars (sess a)).
Proof.
  unfold after_policy. rewrite run_train_policy_vars.
  unfold after_qf2. rewrite run_train_qf2_vars.
  unfold after_qf. rewrite run_train_qf_vars.
  repeat split; reflexivity.
Qed.

(** The target variables after one call, from those before it and the
    online variables the training calls leave behind. *)
Lemma after_step_targets (a : @Algo B Slots) :
  let w := vars (after_policy a) in
  let w0 := vars (sess a) in
  target_policy (vars (after_step a))
  = soft_update (tau hp) (policy w)
      (soft_update (tau hp) (policy w) (target_policy w0))
  /\ target_qf (vars (after_step a))
     = soft_update (tau hp) (qf w) (target_qf w0)
  /\ target_qf2 (vars (after_step a))
     = soft_update (tau hp) (qf2 w) (target_qf2 w0).
Proof.
  cbv zeta.
  destruct (after_policy_targets a) as (Hp & Hq & Hq2).
  rewrite <- Hp, <- Hq, <- Hq2.
  unfold after_step, after_update.
  generalize (after_policy a). intros s.
  repeat split; reflexivity.
Qed.

Lemma after_step_online (a : @Algo B Slots) :
  policy (vars (after_step a)) = policy (vars (after_policy a))
  /\ qf (vars (after_step a)) = qf (vars (after_policy a))
  /\ qf2 (vars (after_step a)) = qf2 (vars (after_policy a)).
Proof. repeat split; reflexivity. Qed.

(** *** Arithmetic of the primitives *)

Lemma Qmin_sym (x y : Q) : Qmin x y == Qmin y x.
Proof.
  destruct (Q.min_spec x y) as [[H E]|[H E]];
    destruct (Q.min_spec y x) as [[H' E']|[H' E']]; lra.
Qed.

Lemma Qmin_eq (x y x' y' : Q) : x == x' -> y == y' -> Qmin x y == Qmin x' y'.
Proof.
  intros Hx Hy.
  destruct (Q.min_spec x y) as [[H E]|[H E]];
    destruct (Q.min_spec x' y') as [[H' E']|[H' E']]; lra.
Qed.

Lemma Qmax_eq (x y x' y' : Q) : x == x' -> y == y' -> Qmax x y == Qmax x' y'.
Proof.
  intros Hx Hy.
  destruct (Q.max_spec x y) as [[H E]|[H E]];
    destruct (Q.max_spec x' y') as [[H' E']|[H' E']]; lra.
Qed.

Lemma clip1_eq (x x' : Q) (lo hi : option Q) :
  x == x' -> clip1 x lo hi == clip1 x' lo hi.
Proof.
  intros H. unfold clip1.
  destruct lo as [l|], hi as [h|];
    repeat (apply Qmin_eq || apply Qmax_eq); trivial; reflexivity.
Qed.

(** [np.clip] with [lo <= hi] lands in [[lo, hi]]. *)
Lemma clip1_bounds (x lo hi : Q) :
  lo <= hi -> lo <= clip1 x (Some lo) (Some hi) <= hi.
Proof.
  intros H. unfold clip1.
  destruct (Q.max_spec x lo) as [[H1 E1]|[H1 E1]];
    destruct (Q.min_spec (Qmax x lo) hi) as [[H2 E2]|[H2 E2]]; lra.
Qed.

Lemma clip1_upper (x hi : Q) (lo : option Q) : clip1 x lo (Some hi) <= hi.
Proof.
  unfold clip1.
  match goal with |- Qmin ?y _ <= _ =>
    destruct (Q.min_spec y hi) as [[H2 E2]|[H2 E2]]; lra end.
Qed.

Lemma Qeq_list_refl (l : list Q) : Qeq_list l l.
Proof. induction l; constructor; [reflexivity | assumption]. Qed.

Lemma Qsum_eq (l l' : list Q) : Qeq_list l l' -> Qsum l == Qsum l'.
Proof.
  induction 1 as [|x y l l' Hxy _ IH]; simpl; [reflexivity|].
  now rewrite Hxy, IH.
Qed.

Lemma reduce_mean_eq (l l' : list Q) :
  Qeq_list l l' -> reduce_mean l == reduce_mean l'.
Proof.
  intros H. unfold reduce_mean.
  rewrite (Qsum_eq _ _ H), (Forall2_length H). reflexivity.
Qed.

Lemma minimum_sym (u v : list Q) : Qeq_list (minimum u v) (minimum v u).
Proof.
  unfold minimum. revert v.
  induction u as [|x u IH]; intros [|y v]; simpl; try constructor.
  - apply Qmin_sym.
  - apply IH.
Qed.

(** *** Soft updates *)

Lemma soft_update_twice (t : Q) (online target : list Q) :
  Qeq_list
    (soft_update t online (soft_update t online target))
    (zip_with (fun v tv => (1 - (1 - t) * (1 - t)) * v
                           + (1 - t) * (1 - t) * tv)
              online target).
Proof.
  unfold soft_update. revert target.
  induction online as [|v o IH]; intros [|tv tg]; simpl; try constructor.
  - ring.
  - apply IH.
Qed.

Lemma nth_soft_update (t : Q) (online target : list Q) (i : nat) :
  (i < length online)%nat -> (i < length target)%nat ->
  nth i (soft_update t online target) 0
  = t * nth i online 0 + (1 - t) * nth i target 0.
Proof.
  unfold soft_update. revert target i.
  induction online as [|v o IH]; intros [|tv tg] [|i] Ho Ht; simpl in *;
    try lia; [reflexivity|].
  apply IH; lia.
Qed.

Lemma soft_update_length (t : Q) (online target : list Q) (i : nat) :
  (i < length online)%nat -> (i < length target)%nat ->
  (i < length (soft_update t online target))%nat.
Proof.
  unfold soft_update. revert target i.
  induction online as [|v o IH]; intros [|tv tg] [|i] Ho Ht; simpl in *;
    try lia.
  apply -> PeanoNat.Nat.succ_lt_mono. apply IH; lia.
Qed.

Lemma repeat_soft_update_length (n : nat) (t : Q) (online target : list Q)
    (i : nat) :
  (i < length online)%nat -> (i < length target)%nat ->
  (i < length (repeat_soft_update n t online target))%nat.
Proof.
  intros Ho Ht. induction n as [|n IH]; simpl; [assumption|].
  now apply soft_update_length.
Qed.

(** One soft update contracts the distance by the factor [1 - t]. *)
Lemma weight_dist_soft_update (t : Q) (online target : list Q) (i : nat) :
  0 < t -> t <= 1 ->
  (i < length online)%nat -> (i < length target)%nat ->
  weight_dist online (soft_update t online target) i
  == (1 - t) * weight_dist online target i.
Proof.
  intros Ht0 Ht1 Ho Htg. unfold weight_dist.
  rewrite nth_soft_update by assumption.
  setoid_replace (t * nth i online 0 + (1 - t) * nth i target 0
                  - nth i online 0)
    with ((1 - t) * (nth i target 0 - nth i online 0)) by ring.
  rewrite Qabs_Qmult. rewrite (Qabs_pos (1 - t)) by lra. reflexivity.
Qed.

Lemma weight_dist_nonneg (online target : list Q) (i : nat) :
  0 <= weight_dist online target i.
Proof. apply Qabs_nonneg. Qed.

Lemma weight_dist_repeat (n : nat) (t : Q) (online target : list Q)
    (i : nat) :
  0 < t -> t <= 1 ->
  (i < length online)%nat -> (i < length target)%nat ->
  weight_dist online (repeat_soft_update n t online target) i
  == Qpow (1 - t) n * weight_dist online target i.
Proof.
  intros Ht0 Ht1 Ho Htg. induction n as [|n IH]; simpl.
  - ring.
  - rewrite weight_dist_soft_update; try assumption.
    + rewrite IH. ring.
    + now apply repeat_soft_update_length.
Qed.

Lemma Qpow_nonneg (r : Q) (n : nat) : 0 <= r -> 0 <= Qpow r n.
Proof.
  intros Hr. induction n as [|n IH]; simpl; [lra|].
  now apply Qmult_le_0_compat.
Qed.

(** [(1 - t)^n * (1 + n * t) <= 1]. *)
Lemma Qpow_decay (t : Q) (n : nat) :
  0 < t -> t <= 1 ->
  Qpow (1 - t) n * (1 + inject_Z (Z.of_nat n) * t) <= 1.
Proof.
  intros Ht0 Ht1. induction n as [|n IH].
  - change (1 * (1 + 0 * t) <= 1). lra.
  - assert (Hp : 0 <= Qpow (1 - t) n) by (apply Qpow_nonneg; lra).
    assert (Hn : 0 <= inject_Z (Z.of_nat n)).
    { change 0 with (inject_Z 0). rewrite <- Zle_Qle. lia. }
    rewrite Nat2Z.inj_succ. unfold Z.succ. rewrite inject_Z_plus.
    change (Qpow (1 - t) (S n)) with ((1 - t) * Qpow (1 - t) n).
    set (p := Qpow (1 - t) n) in *.
    set (k := inject_Z (Z.of_nat n)) in *.
    change (inject_Z 1) with 1.
    assert (Hk : 0 <= (k + 1) * (t * t)).
    { apply Qmult_le_0_compat; [lra|]. apply Qmult_le_0_compat; lra. }
    assert (Hle : (1 - t) * (1 + (k + 1) * t) <= 1 + k * t).
    { setoid_replace ((1 - t) * (1 + (k + 1) * t))
        with (1 + k * t - (k + 1) * (t * t)) by ring. lra. }
    apply Qle_trans with (p * (1 + k * t)); [|exact IH].
    setoid_replace ((1 - t) * p * (1 + (k + 1) * t))
      with (p * ((1 - t) * (1 + (k + 1) * t))) by ring.
    rewrite (Qmult_comm p (_ * _)), (Qmult_comm p (1 + _)).
    apply Qmult_le_compat_r; assumption.
Qed.

Lemma Q_archimedean (q : Q) : exists n : nat, q < inject_Z (Z.of_nat n).
Proof.
  exists (S (Z.to_nat (Qnum q))).
  destruct q as [a b]. unfold Qlt. cbn [Qnum Qden inject_Z].
  rewrite Nat2Z.inj_succ.
  destruct (Z.le_gt_cases 0 a) as [Ha|Ha].
  - rewrite Z2Nat.id by assumption. nia.
  - destruct a; lia.
Qed.

(** Repeated soft updates bring the distance under any positive bound,
    for good. *)
Lemma weight_dist_vanishes (t : Q) (online target : list Q) (i : nat)
    (eps : Q) :
  0 < t -> t <= 1 ->
  (i < length online)%nat -> (i < length target)%nat ->
  0 < eps ->
  exists N : nat, forall n : nat, (N <= n)%nat ->
    weight_dist online (repeat_soft_update n t online target) i < eps.
Proof.
  intros Ht0 Ht1 Ho Htg Heps.
  set (d := weight_dist online target i).
  assert (Hd : 0 <= d) by apply weight_dist_nonneg.
  assert (Hte : 0 < t * eps) by (apply Qmult_lt_0_compat; assumption).
  destruct (Q_archimedean (d / (t * eps))) as [N HN].
  exists N. intros n Hn.
  rewrite weight_dist_repeat by assumption. fold d.
  set (p := Qpow (1 - t) n).
  set (k := inject_Z (Z.of_nat n)).
  assert (Hdec : p * (1 + k * t) <= 1) by (apply Qpow_decay; assumption).
  assert (Hk : inject_Z (Z.of_nat N) <= k).
  { unfold k. rewrite <- Zle_Qle. lia. }
  assert (Hk0 : 0 <= k).
  { unfold k. change 0 with (inject_Z 0). rewrite <- Zle_Qle. lia. }
  assert (Hkt : 0 <= k * t) by (apply Qmult_le_0_compat; lra).
  assert (H1 : p * (1 + k * t) * d <= 1 * d).
  { apply Qmult_le_compat_r; assumption. }
  assert (H2 : d < inject_Z (Z.of_nat N) * (t * eps)).
  { setoid_replace d with (d / (t * eps) * (t * eps)) at 1
      by (field; lra).
    apply Qmult_lt_compat_r; assumption. }
  assert (H3 : inject_Z (Z.of_nat N) * (t * eps) <= k * (t * eps)).
  { apply Qmult_le_compat_r; lra. }
  apply (Qmult_lt_r _ _ (1 + k * t)); [lra|].
  setoid_replace (p * d * (1 + k * t)) with (p * (1 + k * t) * d) by ring.
  setoid_replace (eps * (1 + k * t)) with (eps + k * (t * eps)) by ring.
  lra.
Qed.

Lemma read_write_same (s : Scope) (x : list Q) (st : Store) :
  read s (write s x st) = x.
Proof. destruct s; reflexivity. Qed.

Lemma repeat_update_reads (n : nat) (t : Q) (v tv : Scope) (st : Store) :
  Scope_eqb v tv = false ->
  read v (repeat_update n (get_target_ops v tv t) st) = read v st
  /\ read tv (repeat_update n (get_target_ops v tv t) st)
     = repeat_soft_update n t (read v st) (read tv st).
Proof.
  intros Hne. induction n as [|n [IHv IHt]]; simpl; [now split|].
  unfold run_target_op. cbn [src dst coeff].
  rewrite read_write_same, (read_write_other _ _ _ _ Hne), IHv, IHt.
  now split.
Qed.

Lemma new_calls_app (l l' : list Call) : new_calls l (l ++ l') = l'.
Proof.
  unfold new_calls. induction l as [|c l IH]; simpl; [reflexivity|exact IH].
Qed.

Lemma Qeq_bool_min (l1 l2 : Q) :
  Qeq_bool l2 (Qmin l1 l2) = Qle_bool l2 l1.
Proof.
  destruct (Q.min_spec l1 l2) as [[H E]|[H E]].
  - assert (Hle : Qle_bool l2 l1 = false).
    { destruct (Qle_bool l2 l1) eqn:Eb; [|reflexivity].
      apply Qle_bool_iff in Eb. lra. }
    rewrite Hle.
    destruct (Qeq_bool l2 (Qmin l1 l2)) eqn:Eb; [|reflexivity].
    apply Qeq_bool_iff in Eb. lra.
  - assert (Hle : Qle_bool l2 l1 = true) by (apply Qle_bool_iff; lra).
    rewrite Hle. apply Qeq_bool_iff. lra.
Qed.

Lemma compute_ys_eq (rewards : list Q) (terminals : list bool)
    (q1 q2 q1' q2' : list Q) :
  Qeq_list (minimum q1 q2) (minimum q1' q2') ->
  Qeq_list (compute_ys hp rewards terminals q1 q2)
           (compute_ys hp rewards terminals q1' q2').
Proof.
  unfold compute_ys, clip.
  generalize (minimum q1 q2) (minimum q1' q2'). intros m m' H.
  revert rewards terminals.
  induction H as [|x y m m' Hxy _ IH]; intros rewards terminals.
  - destruct rewards, terminals; simpl; try constructor;
      destruct terminals; constructor.
  - destruct rewards as [|r rs], terminals as [|b bs]; simpl;
      try constructor.
    + apply clip1_eq. now rewrite Hxy.
    + apply IH.
Qed.

Lemma action_loss_objective (st : Store) (obs : list (list Q)) :
  action_loss policy_net qf_net qf2_net policy_regularizable_vars hp st obs
  == - actor_objective st obs + policy_weight_decay_term st.
Proof.
  unfold action_loss, actor_objective, policy_weight_decay_term,
    get_qval_sym, get_q2val_sym, get_action_sym, minimum.
  rewrite !zip_with_self_map, zip_with_map.
  destruct (Qgtb (policy_weight_decay hp) 0); [reflexivity|ring].
Qed.

(** *** The claims *)

(** C1.  For every sampled batch, [optimize_policy] computes the
    bootstrapped target of each transition as
    clip(reward + (1 - terminal) * discount * min(targetQ1(s', a'),
    targetQ2(s', a')), lower, upper), with a' the target policy's action
    at the next observation, and the two critic training calls of the
    step are fed that same vector [ys]. *)
Theorem optimize_policy_bootstrapped_target
    (itr : nat) (sd : SamplesData) (a : @Algo B Slots) :
  let r := step itr sd a in
  ret_ys (fst r) = map (td_target (vars (sess a))) (batch_of a)
  /\ critic_feeds (new_calls (calls a) (calls (snd r)))
     = [(Qf, ret_ys (fst r)); (Qf2, ret_ys (fst r))].
Proof.
  cbv zeta. rewrite step_run. cbn [fst snd ret_ys calls].
  rewrite new_calls_app. split; reflexivity.
Qed.

(** C2, as amended.  Every call of [optimize_policy], whatever [itr],
    runs the phases sample, compute targets, update critics, update
    actor, soft-update targets in that order, the actor update once in
    every call: the policy variables it leaves are those the policy
    optimizer returned for the actor loss. *)
Theorem optimize_policy_updates_actor_every_call
    (itr : nat) (sd : SamplesData) (a : @Algo B Slots) :
  let r := step itr sd a in
  map phase_of (new_calls (calls a) (calls (snd r)))
  = [PSample; PComputeTargets; PComputeTargets; PComputeTargets;
     PUpdateCritics; PUpdateCritics; PUpdateActor;
     PSoftUpdate; PSoftUpdate]
  /\ policy (vars (sess (snd r)))
     = snd (policy_optimizer (policy_lr hp) (policy_slots (after_qf2 a))
              (fun w => action_loss policy_net qf_net qf2_net
                          policy_regularizable_vars hp w
                          (map input_of (batch_of a)))
              policy_train_var_list (vars (after_qf2 a))) Policy.
Proof.
  cbv zeta. rewrite step_run. cbn [fst snd calls sess].
  rewrite new_calls_app. split; [reflexivity|].
  destruct (after_step_online a) as (Hp & _). rewrite Hp.
  unfold after_policy. rewrite run_train_policy_vars. reflexivity.
Qed.

(** C4.  The policy training loss is the negated mean over the batch of
    min(Q1(s, pi(s)), Q2(s, pi(s))) with the online critics, plus the
    weight-decay term when [policy_weight_decay > 0]; the policy
    optimizer minimises it over [policy.get_trainable_vars()] only: the
    call assigns its result to the policy variables and leaves every
    other variable as it was. *)
Theorem policy_update_maximises_min_critic
    (s : @Session Slots) (obs : list (list Q)) :
  let loss := action_loss policy_net qf_net qf2_net
                policy_regularizable_vars hp in
  let s' := snd (run_train_policy policy_net qf_net qf2_net
                   policy_regularizable_vars policy_optimizer hp s obs) in
  loss (vars s) obs
  == - actor_objective (vars s) obs + policy_weight_decay_term (vars s)
  /\ policy_train_var_list = [Policy]
  /\ policy (vars s')
     = snd (policy_optimizer (policy_lr hp) (policy_slots s)
              (fun w => loss w obs) policy_train_var_list (vars s)) Policy
  /\ target_policy (vars s') = target_policy (vars s)
  /\ qf (vars s') = qf (vars s)
  /\ target_qf (vars s') = target_qf (vars s)
  /\ qf2 (vars s') = qf2 (vars s)
  /\ target_qf2 (vars s') = target_qf2 (vars s).
Proof.
  cbv zeta. split; [apply action_loss_objective|].
  rewrite run_train_policy_vars. repeat split; reflexivity.
Qed.

(** C6.  Each call of [optimize_policy] applies the policy target's soft
    update twice, both target-update callables holding the policy update
    ops, and each critic target's once: the policy target moves with the
    coefficient 1 - (1 - tau)^2, the critic targets with tau. *)
Theorem policy_target_soft_updated_twice
    (itr : nat) (sd : SamplesData) (a : @Algo B Slots) :
  let ops := target_update_op hp ++ target_update_op2 hp in
  let w0 := vars (sess a) in
  let w := vars (after_policy a) in
  let w' := vars (sess (snd (step itr sd a))) in
  let r := 1 - tau hp in
  map (fun t => assignments_to t ops) [TargetPolicy; TargetQf; TargetQf2]
  = [2%nat; 1%nat; 1%nat]
  /\ Qeq_list (target_policy w')
       (zip_with (fun v tv => (1 - r * r) * v + r * r * tv)
                 (policy w) (target_policy w0))
  /\ target_qf w' = soft_update (tau hp) (qf w) (target_qf w0)
  /\ target_qf2 w' = soft_update (tau hp) (qf2 w) (target_qf2 w0).
Proof.
  cbv zeta. rewrite step_run. cbn [fst snd sess].
  destruct (after_step_targets a) as (Hp & Hq & Hq2).
  rewrite Hp, Hq, Hq2.
  repeat split; try reflexivity. apply soft_update_twice.
Qed.

(** C8.  Every call of [optimize_policy] returns the 4-tuple
    (qval_loss, targets, qval, action_loss), in this order: the reported
    critic loss, the vector [ys] of targets, the reported critic
    prediction and the actor loss fetched by the policy training call. *)
Theorem optimize_policy_returns_in_order
    (itr : nat) (sd : SamplesData) (a : @Algo B Slots) :
  fst (step itr sd a)
  = (Qmin (fst (qf_fetch a)) (fst (qf2_fetch a)),
     map (td_target (vars (sess a))) (batch_of a),
     (if Qle_bool (fst (qf2_fetch a)) (fst (qf_fetch a))
      then snd (qf2_fetch a) else snd (qf_fetch a)),
     action_loss policy_net qf_net qf2_net policy_regularizable_vars hp
       (vars (after_qf2 a)) (map input_of (batch_of a))).
Proof.
  rewrite step_run. cbn [fst]. rewrite Qeq_bool_min.
  unfold policy_fetch, run_train_policy.
  destruct (minimize _ _ _ _ _ _) as [sl st]. reflexivity.
Qed.

(** C9.  Under repeated soft updates with the online weights held fixed
    and tau in (0, 1], the distance between each target weight and its
    online counterpart contracts by the factor (1 - tau) at every
    update, so it never grows and comes under every positive bound. *)
Theorem soft_update_converges
    (t : Q) (v tv : Scope) (st : Store) (i : nat) :
  0 < t -> t <= 1 ->
  Scope_eqb v tv = false ->
  (i < length (read v st))%nat -> (i < length (read tv st))%nat ->
  let after := fun n => repeat_update n (get_target_ops v tv t) st in
  let d := fun n => weight_dist (read v (after n)) (read tv (after n)) i in
  (forall n, read v (after n) = read v st)
  /\ (forall n, d (S n) == (1 - t) * d n)
  /\ (forall n, d (S n) <= d n)
  /\ (forall eps, 0 < eps ->
      exists N : nat, forall n : nat, (N <= n)%nat -> d n < eps).
Proof.
  intros Ht0 Ht1 Hne Ho Htg. cbv zeta.
  assert (Hstep : forall n,
    weight_dist (read v (repeat_update (S n) (get_target_ops v tv t) st))
                (read tv (repeat_update (S n) (get_target_ops v tv t) st)) i
    == (1 - t)
       * weight_dist (read v (repeat_update n (get_target_ops v tv t) st))
           (read tv (repeat_update n (get_target_ops v tv t) st)) i).
  { intros n.
    destruct (repeat_update_reads (S n) t v tv st Hne) as [-> ->].
    destruct (repeat_update_reads n t v tv st Hne) as [-> ->].
    cbn [repeat_soft_update].
    apply weight_dist_soft_update; try assumption.
    now apply repeat_soft_update_length. }
  split; [|split; [|split]].
  - intros n. apply (repeat_update_reads n t v tv st Hne).
  - exact Hstep.
  - intros n. rewrite Hstep.
    match goal with |- _ * ?x <= _ =>
      assert (Hx : 0 <= x) by apply weight_dist_nonneg;
      assert (Htx : 0 <= t * x) by (apply Qmult_le_0_compat; lra);
      setoid_replace ((1 - t) * x) with (x - t * x) by ring; lra
    end.
  - intros eps Heps.
    destruct (weight_dist_vanishes t (read v st) (read tv st) i eps
                Ht0 Ht1 Ho Htg Heps) as [N HN].
    exists N. intros n Hn.
    destruct (repeat_update_reads n t v tv st Hne) as [-> ->].
    now apply HN.
Qed.

(** C10.  Minimum-of-two-critics selection is symmetric: exchanging the
    two critics' estimates gives the same selected values, the same
    targets and the same actor loss. *)
Theorem min_of_two_critics_symmetric
    (u v rewards : list Q) (terminals : list bool) (st : Store)
    (obs : list (list Q)) :
  Qeq_list (minimum u v) (minimum v u)
  /\ Qeq_list (compute_ys hp rewards terminals u v)
              (compute_ys hp rewards terminals v u)
  /\ action_loss policy_net qf2_net qf_net policy_regularizable_vars hp
       (swap_critics st) obs
     == action_loss policy_net qf_net qf2_net policy_regularizable_vars hp
          st obs.
Proof.
  split; [apply minimum_sym|].
  split; [apply compute_ys_eq, minimum_sym|].
  unfold action_loss, get_qval_sym, get_q2val_sym, get_action_sym,
    swap_critics.
  cbn [policy qf qf2].
  set (q := zip_with (qf_net (qf st)) obs _).
  set (q2 := zip_with (qf2_net (qf2 st)) obs _).
  assert (H : reduce_mean (minimum q2 q) == reduce_mean (minimum q q2))
    by apply reduce_mean_eq, minimum_sym.
  destruct (Qgtb (policy_weight_decay hp) 0); rewrite H; reflexivity.
Qed.

(** *** Further properties of the step *)

Lemma zip_with_length {X Y Z : Type} (f : X -> Y -> Z) (l : list X)
    (l' : list Y) :
  length (zip_with f l l') = Nat.min (length l) (length l').
Proof.
  revert l'; induction l as [|x l IH]; intros [|y l']; simpl; try reflexivity.
  now rewrite IH.
Qed.

Lemma qf_fetch_eq (a : @Algo B Slots) :
  qf_fetch a
  = (qval_loss qf_net qf2_net qf_regularizable_vars hp (vars (sess a))
       (ys_of a) (map input_of (batch_of a)) (map action (batch_of a)),
     get_qval_sym qf_net (vars (sess a)) (map input_of (batch_of a))
       (map action (batch_of a))).
Proof.
  unfold qf_fetch, run_train_qf.
  destruct (minimize _ _ _ _ _ _) as [sl st]. reflexivity.
Qed.

Lemma qf2_fetch_eq (a : @Algo B Slots) :
  qf2_fetch a
  = (qval_loss qf_net qf2_net qf_regularizable_vars hp (vars (after_qf a))
       (ys_of a) (map input_of (batch_of a)) (map action (batch_of a)),
     get_q2val_sym qf2_net (vars (after_qf a)) (map input_of (batch_of a))
       (map action (batch_of a))).
Proof.
  unfold qf2_fetch, run_train_qf2.
  destruct (minimize _ _ _ _ _ _) as [sl st]. reflexivity.
Qed.

Lemma clip1_mono (x x' : Q) (lo hi : option Q) :
  x <= x' -> clip1 x lo hi <= clip1 x' lo hi.
Proof.
  intros H. unfold clip1.
  assert (Hm : match lo with Some l => Qmax x l | None => x end
               <= match lo with Some l => Qmax x' l | None => x' end).
  { destruct lo as [l|]; [|exact H].
    destruct (Q.max_spec x l) as [[H1 E1]|[H1 E1]];
      destruct (Q.max_spec x' l) as [[H2 E2]|[H2 E2]]; lra. }
  destruct hi as [h|]; [|exact Hm].
  match goal with |- Qmin ?u _ <= Qmin ?v _ =>
    destruct (Q.min_spec u h) as [[H1 E1]|[H1 E1]];
      destruct (Q.min_spec v h) as [[H2 E2]|[H2 E2]]; lra
  end.
Qed.

Lemma Qsum_nonneg (l : list Q) : Forall (Qle 0) l -> 0 <= Qsum l.
Proof.
  induction 1 as [|x l Hx _ IH]; simpl; lra.
Qed.

Lemma Qsum_le (l l' : list Q) : Forall2 Qle l l' -> Qsum l <= Qsum l'.
Proof.
  induction 1 as [|x y l l' Hxy _ IH]; simpl; lra.
Qed.

Lemma inject_nat_nonneg (n : nat) : 0 <= inject_Z (Z.of_nat n).
Proof. change 0 with (inject_Z 0). rewrite <- Zle_Qle. lia. Qed.

Lemma inject_nat_pos (n : nat) : (0 < n)%nat -> 0 < inject_Z (Z.of_nat n).
Proof. intros H. change 0 with (inject_Z 0). rewrite <- Zlt_Qlt. lia. Qed.

Lemma Qdiv_nonneg (x d : Q) : 0 <= x -> 0 <= d -> 0 <= x / d.
Proof.
  intros Hx Hd. unfold Qdiv. apply Qmult_le_0_compat; [assumption|].
  now apply Qinv_le_0_compat.
Qed.

Lemma reduce_mean_nonneg (l : list Q) : Forall (Qle 0) l -> 0 <= reduce_mean l.
Proof.
  intros H. unfold reduce_mean.
  apply Qdiv_nonneg; [now apply Qsum_nonneg | apply inject_nat_nonneg].
Qed.

Lemma reduce_mean_le (l l' : list Q) :
  Forall2 Qle l l' -> reduce_mean l <= reduce_mean l'.
Proof.
  intros H. unfold reduce_mean. rewrite (Forall2_length H).
  unfold Qdiv. apply Qmult_le_compat_r; [now apply Qsum_le|].
  apply Qinv_le_0_compat, inject_nat_nonneg.
Qed.

Lemma squared_difference_nonneg (y q : Q) : 0 <= squared_difference y q.
Proof.
  unfold squared_difference.
  destruct (Qlt_le_dec (y - q) 0) as [H|H].
  - setoid_replace ((y - q) * (y - q)) with ((q - y) * (q - y)) by ring.
    apply Qmult_le_0_compat; lra.
  - now apply Qmult_le_0_compat.
Qed.

Lemma zip_with_Forall {X Y : Type} (f : X -> Y -> Q) (P : Q -> Prop)
    (l : list X) (l' : list Y) :
  (forall x y, P (f x y)) -> Forall P (zip_with f l l').
Proof.
  intros Hf. revert l'; induction l as [|x l IH]; intros [|y l']; simpl;
    constructor; [apply Hf | apply IH].
Qed.

Lemma l2_loss_nonneg (v : list Q) : 0 <= l2_loss v.
Proof.
  unfold l2_loss. apply Qdiv_nonneg; [|lra].
  apply Qsum_nonneg. apply Forall_forall. intros x Hx.
  apply in_map_iff in Hx. destruct Hx as [z [<- _]].
  generalize (squared_difference_nonneg z 0). unfold squared_difference.
  intros H. setoid_replace (z * z) with ((z - 0) * (z - 0)) by ring. exact H.
Qed.

Lemma Qgtb_true (x : Q) : Qgtb x 0 = true -> 0 < x.
Proof.
  unfold Qgtb. intros H. apply negb_true_iff in H.
  destruct (Qlt_le_dec 0 x) as [Hlt|Hle]; [assumption|].
  apply Qle_bool_iff in Hle. congruence.
Qed.

Lemma qf_weight_decay_term_nonneg (w : list Q) : 0 <= qf_weight_decay_term w.
Proof.
  unfold qf_weight_decay_term.
  destruct (Qgtb (qf_weight_decay hp) 0) eqn:E; [|lra].
  apply Qgtb_true in E. apply Qmult_le_0_compat; [lra|].
  unfold add_n. apply Qsum_nonneg. apply Forall_forall. intros x Hx.
  apply in_map_iff in Hx. destruct Hx as [v [<- _]]. apply l2_loss_nonneg.
Qed.

(** The critic loss as its two mean squared errors and the decay term. *)
Lemma qval_loss_split (st : Store) (y : list Q) (obs acts : list (list Q)) :
  qval_loss qf_net qf2_net qf_regularizable_vars hp st y obs acts
  == reduce_mean (zip_with squared_difference y
                    (get_qval_sym qf_net st obs acts))
     + reduce_mean (zip_with squared_difference y
                      (get_q2val_sym qf2_net st obs acts))
     + qf_weight_decay_term (qf st).
Proof.
  unfold qval_loss, qf_weight_decay_term.
  destruct (Qgtb (qf_weight_decay hp) 0); [reflexivity|ring].
Qed.

Lemma qval_loss_nonneg (st : Store) (y : list Q) (obs acts : list (list Q)) :
  0 <= qval_loss qf_net qf2_net qf_regularizable_vars hp st y obs acts.
Proof.
  rewrite qval_loss_split.
  assert (H1 := reduce_mean_nonneg
                  (zip_with squared_difference y
                     (get_qval_sym qf_net st obs acts))
                  (zip_with_Forall _ _ _ _ squared_difference_nonneg)).
  assert (H2 := reduce_mean_nonneg
                  (zip_with squared_difference y
                     (get_q2val_sym qf2_net st obs acts))
                  (zip_with_Forall _ _ _ _ squared_difference_nonneg)).
  assert (H3 := qf_weight_decay_term_nonneg (qf st)).
  lra.
Qed.

Lemma clip1_fix (x : Q) :
  in_clip_range hp x ->
  clip1 x (fst (clip_range hp)) (snd (clip_range hp)) == x.
Proof.
  unfold in_clip_range, clip_range, clip1.
  destruct (clip_return hp) as [|c], (clip_pos_returns hp); cbn [fst snd];
    intros H.
  - destruct (Q.min_spec x 0) as [[H1 E1]|[H1 E1]]; lra.
  - reflexivity.
  - destruct H as [Hl Hh].
    destruct (Q.max_spec x (- c)) as [[H1 E1]|[H1 E1]];
      destruct (Q.min_spec (Qmax x (- c)) 0) as [[H2 E2]|[H2 E2]]; lra.
  - destruct H as [Hl Hh].
    destruct (Q.max_spec x (- c)) as [[H1 E1]|[H1 E1]];
      destruct (Q.min_spec (Qmax x (- c)) c) as [[H2 E2]|[H2 E2]]; lra.
Qed.

Lemma Forall2_map_same {X : Type} (R : Q -> Q -> Prop) (f g : X -> Q)
    (l : list X) :
  (forall x, In x l -> R (f x) (g x)) -> Forall2 R (map f l) (map g l).
Proof.
  induction l as [|x l IH]; intros H; simpl; constructor.
  - apply H. now left.
  - apply IH. intros z Hz. apply H. now right.
Qed.

Lemma td_target_raw (st : Store) (tr : Transition) :
  td_target st tr
  = clip1 (raw_target st tr) (fst (clip_range hp)) (snd (clip_range hp)).
Proof. reflexivity. Qed.

Lemma bootstrap_weight_nonneg (b : bool) :
  0 <= discount hp -> 0 <= (1 - flag b) * discount hp.
Proof.
  intros Hd. apply Qmult_le_0_compat; [|assumption].
  destruct b; unfold flag; lra.
Qed.

Lemma Qmult_le_compat_l_nonneg (k x y : Q) : 0 <= k -> x <= y -> k * x <= k * y.
Proof.
  intros Hk Hxy. rewrite (Qmult_comm k x), (Qmult_comm k y).
  now apply Qmult_le_compat_r.
Qed.

(** X1.  [optimize_policy] reads neither [itr] nor [samples_data]: two
    calls from the same state give the same result and the same state
    whatever these arguments are. *)
Theorem optimize_policy_ignores_itr_and_samples_data
    (itr itr' : nat) (sd sd' : SamplesData) (a : @Algo B Slots) :
  step itr sd a = step itr' sd' a.
Proof. now rewrite !step_run. Qed.

(** X2.  [optimize_policy] returns one target and one Q-value per sampled
    transition. *)
Theorem optimize_policy_one_row_per_transition
    (itr : nat) (sd : SamplesData) (a : @Algo B Slots) :
  let r := fst (step itr sd a) in
  length (ret_ys r) = length (batch_of a)
  /\ length (ret_qval r) = length (batch_of a).
Proof.
  cbv zeta. rewrite step_run. cbn [fst ret_ys ret_qval]. split.
  - unfold ys_of. apply length_map.
  - rewrite qf_fetch_eq, qf2_fetch_eq. cbn [fst snd].
    unfold get_qval_sym, get_q2val_sym.
    destruct (Qeq_bool _ _);
      rewrite zip_with_length, !length_map; apply Nat.min_id.
Qed.

(** X4.  With the default [clip_return = np.inf] and
    [clip_pos_returns = False] nothing is clipped: the targets are the raw
    bootstrapped values. *)
Theorem default_clip_range_clips_nothing
    (itr : nat) (sd : SamplesData) (a : @Algo B Slots) :
  clip_return hp = ClipInf -> clip_pos_returns hp = false ->
  ret_ys (fst (step itr sd a))
  = map (raw_target (vars (sess a))) (batch_of a).
Proof.
  intros Hc Hp. rewrite step_run. cbn [fst ret_ys]. unfold ys_of.
  apply map_ext. intros tr. rewrite td_target_raw.
  unfold clip_range. rewrite Hc, Hp. reflexivity.
Qed.

(** X5.  Clipping changes only what is out of range: when every raw
    bootstrapped value of the batch lies in the clip range, the targets
    are these values. *)
Theorem in_range_targets_are_not_clipped
    (itr : nat) (sd : SamplesData) (a : @Algo B Slots) :
  Forall (in_clip_range hp) (map (raw_target (vars (sess a))) (batch_of a)) ->
  Qeq_list (ret_ys (fst (step itr sd a)))
           (map (raw_target (vars (sess a))) (batch_of a)).
Proof.
  intros H. rewrite step_run. cbn [fst ret_ys]. unfold ys_of.
  apply Forall2_map_same. intros tr Htr. rewrite td_target_raw.
  apply clip1_fix. rewrite Forall_forall in H. apply H.
  apply in_map_iff. now exists tr.
Qed.


(** X7.  Taking the minimum of the two target critics limits
    overestimation: with a non-negative discount no target exceeds the
    target either target critic would give alone. *)
Theorem targets_bounded_by_single_critic_targets
    (itr : nat) (sd : SamplesData) (a : @Algo B Slots) :
  0 <= discount hp ->
  Forall2 Qle (ret_ys (fst (step itr sd a)))
          (map (qf_target (vars (sess a))) (batch_of a))
  /\ Forall2 Qle (ret_ys (fst (step itr sd a)))
             (map (qf2_target (vars (sess a))) (batch_of a)).
Proof.
  intros Hd. rewrite step_run. cbn [fst ret_ys]. unfold ys_of.
  split; apply Forall2_map_same; intros tr _;
    unfold td_target, qf_target, qf2_target; cbv zeta;
    apply clip1_mono;
    assert (Hk := bootstrap_weight_nonneg (terminal tr) Hd);
    match goal with |- _ + ?k * Qmin ?u ?v <= _ + ?k * ?w =>
      assert (Hm : k * Qmin u v <= k * w)
        by (apply Qmult_le_compat_l_nonneg;
            [exact Hk | apply Q.le_min_l || apply Q.le_min_r]);
      lra
    end.
Qed.

(** X8.  The actor is trained on the pessimistic estimate: for a non-empty
    batch its loss is at least the loss either online critic alone would
    give, that is, minus the mean of that critic's estimate plus the
    weight-decay term. *)
Theorem action_loss_bounded_by_single_critic_loss
    (st : Store) (obs : list (list Q)) :
  obs <> [] ->
  let next_action := get_action_sym policy_net st obs in
  - reduce_mean (get_qval_sym qf_net st obs next_action)
    + policy_weight_decay_term st
  <= action_loss policy_net qf_net qf2_net policy_regularizable_vars hp
       st obs
  /\ - reduce_mean (get_q2val_sym qf2_net st obs next_action)
       + policy_weight_decay_term st
     <= action_loss policy_net qf_net qf2_net policy_regularizable_vars hp
          st obs.
Proof.
  intros _. cbv zeta. rewrite action_loss_objective.
  unfold actor_objective, get_qval_sym, get_q2val_sym, get_action_sym.
  rewrite !zip_with_self_map.
  split.
  - match goal with |- - reduce_mean ?l + _ <= - reduce_mean ?m + _ =>
      assert (H : reduce_mean m <= reduce_mean l)
        by (apply reduce_mean_le, Forall2_map_same; intros s _;
            apply Q.le_min_l);
      lra
    end.
  - match goal with |- - reduce_mean ?l + _ <= - reduce_mean ?m + _ =>
      assert (H : reduce_mean m <= reduce_mean l)
        by (apply reduce_mean_le, Forall2_map_same; intros s _;
            apply Q.le_min_r);
      lra
    end.
Qed.

(** X9.  Each critic training call writes the variables of its own critic
    only: training the first critic leaves the policy and the second
    critic as they were, training the second leaves the policy and the
    first. *)
Theorem critic_training_writes_its_own_critic
    (s : @Session Slots) (y : list Q) (obs acts : list (list Q)) :
  let s_qf := snd (run_train_qf qf_net qf2_net qf_regularizable_vars
                     qf_optimizer hp s y obs acts) in
  let s_qf2 := snd (run_train_qf2 qf_net qf2_net qf_regularizable_vars
                      qf_optimizer hp s y obs acts) in
  map (fun v => read v (vars s_qf)) [Policy; Qf2]
  = map (fun v => read v (vars s)) [Policy; Qf2]
  /\ map (fun v => read v (vars s_qf2)) [Policy; Qf]
     = map (fun v => read v (vars s)) [Policy; Qf]
  /\ get_q2val_sym qf2_net (vars s_qf) obs acts
     = get_q2val_sym qf2_net (vars s) obs acts
  /\ get_qval_sym qf_net (vars s_qf2) obs acts
     = get_qval_sym qf_net (vars s) obs acts.
Proof.
  cbv zeta. rewrite run_train_qf_vars, run_train_qf2_vars.
  repeat split; reflexivity.
Qed.

(** X10.  The two target-update callables write target variables only,
    and the order in which [optimize_policy] runs them does not matter. *)
Theorem target_updates_commute_and_keep_online
    (s : @Session Slots) :
  let u := run_update (target_update_op hp) in
  let u2 := run_update (target_update_op2 hp) in
  u2 (u s) = u (u2 s)
  /\ map (fun v => read v (vars (u s))) [Policy; Qf; Qf2]
     = map (fun v => read v (vars s)) [Policy; Qf; Qf2]
  /\ map (fun v => read v (vars (u2 s))) [Policy; Qf; Qf2]
     = map (fun v => read v (vars s)) [Policy; Qf; Qf2]
  /\ target_qf2 (vars (u s)) = target_qf2 (vars s)
  /\ target_qf (vars (u2 s)) = target_qf (vars s).
Proof.
  cbv zeta. repeat split; reflexivity.
Qed.

(** X11.  The critic loss is the sum of the two critics' mean squared
    errors, symmetric in the critics, plus a weight-decay term taken over
    the first critic's variables only: exchanging the critics changes the
    loss by the difference of their decay terms. *)
Theorem qval_loss_decays_first_critic_only
    (st : Store) (y : list Q) (obs acts : list (list Q)) :
  qval_loss qf_net qf2_net qf_regularizable_vars hp st y obs acts
  - qval_loss qf2_net qf_net qf_regularizable_vars hp (swap_critics st)
      y obs acts
  == qf_weight_decay_term (qf st) - qf_weight_decay_term (qf2 st).
Proof.
  unfold qval_loss, qf_weight_decay_term, get_qval_sym, get_q2val_sym,
    swap_critics.
  cbn [qf qf2].
  destruct (Qgtb (qf_weight_decay hp) 0); ring.
Qed.

(** X12.  For a non-empty batch the critic loss that [optimize_policy]
    reports is not negative. *)
Theorem reported_qval_loss_nonneg
    (itr : nat) (sd : SamplesData) (a : @Algo B Slots) :
  batch_of a <> [] ->
  0 <= ret_qval_loss (fst (step itr sd a)).
Proof.
  intros _. rewrite step_run. cbn [fst ret_qval_loss].
  rewrite qf_fetch_eq, qf2_fetch_eq. cbn [fst].
  match goal with |- 0 <= Qmin ?u ?v =>
    assert (Hu : 0 <= u) by apply qval_loss_nonneg;
    assert (Hv : 0 <= v) by apply qval_loss_nonneg;
    destruct (Q.min_spec u v) as [[H E]|[H E]]; lra
  end.
Qed.

Lemma train_steps_calls (n : nat) (sd : SamplesData) (a : @Algo B Slots) :
  exists cs : list Call,
    calls (train_steps n sd a) = calls a ++ cs
    /\ length cs = (9 * n)%nat
    /\ length (filter is_train_policy cs) = n
    /\ length (critic_feeds cs) = (2 * n)%nat.
Proof.
  induction n as [|n (cs & Hc & Hl & Hp & Hf)].
  - exists []. simpl. rewrite app_nil_r. repeat split; reflexivity.
  - exists (cs ++ step_calls (train_steps n sd a)).
    cbn [train_steps]. rewrite step_run. cbn [snd calls].
    rewrite Hc, <- app_assoc.
    unfold critic_feeds in *.
    rewrite length_app, filter_app, length_app, flat_map_app, length_app.
    rewrite Hl, Hp, Hf. cbn.
    repeat split; lia.
Qed.

(** X13.  Calls of [optimize_policy] compose: [n] calls in a row append
    [9 * n] calls to the trace, among them exactly [n] policy training
    calls and [2 * n] critic training calls. *)
Theorem train_steps_trains_actor_once_per_call
    (n : nat) (sd : SamplesData) (a : @Algo B Slots) :
  let cs := new_calls (calls a) (calls (train_steps n sd a)) in
  length cs = (9 * n)%nat
  /\ length (filter is_train_policy cs) = n
  /\ length (critic_feeds cs) = (2 * n)%nat.
Proof.
  cbv zeta. destruct (train_steps_calls n sd a) as (cs & Hc & H).
  rewrite Hc, new_calls_app. exact H.
Qed.

(** X14.  The targets depend on the target networks and the sampled batch
    only: two states with the same replay buffer and the same target
    variables get the same targets, whatever their online variables,
    optimizer slots and traces. *)
Theorem targets_depend_on_target_networks_only
    (itr : nat) (sd : SamplesData) (a a' : @Algo B Slots) :
  replay_buffer a = replay_buffer a' ->
  target_policy (vars (sess a)) = target_policy (vars (sess a')) ->
  target_qf (vars (sess a)) = target_qf (vars (sess a')) ->
  target_qf2 (vars (sess a)) = target_qf2 (vars (sess a')) ->
  ret_ys (fst (step itr sd a)) = ret_ys (fst (step itr sd a')).
Proof.
  intros Hb Hp Hq Hq2. rewrite !step_run. cbn [fst ret_ys].
  unfold ys_of, batch_of. rewrite Hb. apply map_ext. intros tr.
  unfold td_target. rewrite Hp, Hq, Hq2. reflexivity.
Qed.

Lemma squared_difference_zero (y q : Q) :
  squared_difference y q == 0 <-> y == q.
Proof.
  unfold squared_difference. split; intros H.
  - apply Qmult_integral in H. destruct H; lra.
  - rewrite H. ring.
Qed.

Lemma Qsum_squared_difference_zero (y q : list Q) :
  length q = length y ->
  (Qsum (zip_with squared_difference y q) == 0 <-> Qeq_list y q).
Proof.
  revert q. induction y as [|a y IH]; intros [|b q] Hlen; simpl in *;
    try discriminate Hlen.
  - split; [constructor | reflexivity].
  - injection Hlen as Hlen. specialize (IH q Hlen).
    assert (Ha := squared_difference_nonneg a b).
    assert (Hs : 0 <= Qsum (zip_with squared_difference y q)).
    { apply Qsum_nonneg, zip_with_Forall, squared_difference_nonneg. }
    split; intros H.
    + constructor.
      * apply squared_difference_zero. lra.
      * apply IH. lra.
    + inversion H as [|? ? ? ? Hab Hyq]; subst.
      apply squared_difference_zero in Hab. apply IH in Hyq. lra.
Qed.

Lemma reduce_mean_zero (l : list Q) :
  l <> [] -> (reduce_mean l == 0 <-> Qsum l == 0).
Proof.
  intros Hl. unfold reduce_mean.
  assert (Hn : 0 < inject_Z (Z.of_nat (length l))).
  { apply inject_nat_pos. destruct l; [congruence | simpl; lia]. }
  split; intros H.
  - setoid_replace (Qsum l)
      with (Qsum l / inject_Z (Z.of_nat (length l))
            * inject_Z (Z.of_nat (length l))) by (field; lra).
    rewrite H. ring.
  - rewrite H. field. lra.
Qed.

Lemma mse_zero_iff (y q : list Q) :
  y <> [] -> length q = length y ->
  (reduce_mean (zip_with squared_difference y q) == 0 <-> Qeq_list y q).
Proof.
  intros Hy Hlen.
  rewrite reduce_mean_zero.
  - now apply Qsum_squared_difference_zero.
  - destruct y as [|a y]; [congruence|].
    destruct q as [|b q]; [discriminate Hlen|]. discriminate.
Qed.

(** X15.  Without weight decay the critic loss of a non-empty batch is
    zero exactly when both critics predict every target: a perfect fit
    and nothing else brings the loss to its minimum 0. *)
Theorem qval_loss_zero_iff_perfect_fit
    (st : Store) (y : list Q) (obs acts : list (list Q)) :
  qf_weight_decay hp <= 0 ->
  y <> [] -> length obs = length y -> length acts = length y ->
  (qval_loss qf_net qf2_net qf_regularizable_vars hp st y obs acts == 0
   <-> Qeq_list y (get_qval_sym qf_net st obs acts)
       /\ Qeq_list y (get_q2val_sym qf2_net st obs acts)).
Proof.
  intros Hwd Hy Ho Ha.
  assert (Hl1 : length (get_qval_sym qf_net st obs acts) = length y).
  { unfold get_qval_sym. rewrite zip_with_length, Ho, Ha. apply Nat.min_id. }
  assert (Hl2 : length (get_q2val_sym qf2_net st obs acts) = length y).
  { unfold get_q2val_sym. rewrite zip_with_length, Ho, Ha. apply Nat.min_id. }
  assert (Hterm : qf_weight_decay_term (qf st) == 0).
  { unfold qf_weight_decay_term, Qgtb.
    apply Qle_bool_iff in Hwd. rewrite Hwd. reflexivity. }
  rewrite qval_loss_split, Hterm.
  rewrite <- (mse_zero_iff y _ Hy Hl1), <- (mse_zero_iff y _ Hy Hl2).
  assert (H1 := reduce_mean_nonneg
                  (zip_with squared_difference y
                     (get_qval_sym qf_net st obs acts))
                  (zip_with_Forall _ _ _ _ squared_difference_nonneg)).
  assert (H2 := reduce_mean_nonneg
                  (zip_with squared_difference y
                     (get_q2val_sym qf2_net st obs acts))
                  (zip_with_Forall _ _ _ _ squared_difference_nonneg)).
  split; [intros H; split; lra | intros [E1 E2]; lra].
Qed.

(** *** Non-finite values in the targets *)



Lemma xle_refl (x : XFloat) : xisnan x = false -> xle x x.
Proof. destruct x; simpl; intros H; try exact I; [discriminate H | lra]. Qed.








Lemma compute_ys_rows_map (rows : list XRow) :
  compute_ys_rows hp rows = map (x_target hp) rows.
Proof.
  unfold compute_ys_rows, compute_ys_float, x_target.
  induction rows as [|row rows IH]; [reflexivity|].
  cbn [map zip_with]. f_equal. exact IH.
Qed.

Lemma xeq_refl (x : XFloat) : xeq x x.
Proof. destruct x; simpl; trivial. reflexivity. Qed.

Lemma xclip_xeq (x x' lo hi : XFloat) :
  xeq x x' -> xeq (xclip x lo hi) (xclip x' lo hi).
Proof.
  unfold xclip.
  destruct x as [| |x|], x' as [| |x'|]; simpl; intros H;
    try contradiction; try exact I; try apply xeq_refl.
  simpl in H.
  destruct lo as [| |l|], hi as [| |h|]; simpl; trivial;
    repeat (apply Qmin_eq || apply Qmax_eq); trivial; reflexivity.
Qed.

(** X3.  For a terminal transition whose two target critic outputs have a
    finite minimum, the target is the clipped reward alone: the bootstrap
    term is multiplied by [1 - terminal = 0].  When that minimum is
    infinite or NaN, the product is NaN and so is the target. *)
Theorem terminal_target_is_clipped_reward_when_finite
    (rows : list XRow) :
  xeq_list (compute_ys_rows hp rows)
    (map (fun row =>
            if x_terminal row
            then if xfinite (xminimum (x_qval row) (x_q2val row))
                 then xclip (x_reward row) (fst (clip_range_float hp))
                            (snd (clip_range_float hp))
                 else XNaN
            else x_target hp row)
         rows).
Proof.
  rewrite compute_ys_rows_map. unfold xeq_list.
  induction rows as [|row rows IH]; simpl; constructor; [|exact IH].
  destruct (x_terminal row) eqn:Et; [|apply xeq_refl].
  unfold x_target. rewrite Et.
  destruct (xminimum (x_qval row) (x_q2val row)) as [| |m|] eqn:Em;
    cbn [xfinite].
  - destruct (x_reward row); exact I.
  - destruct (x_reward row); exact I.
  - apply xclip_xeq.
    destruct (x_reward row) as [| |r|]; simpl; trivial.
    unfold flag. ring.
  - destruct (x_reward row); exact I.
Qed.

Lemma trainable_only_no_target (var_list : list Scope) (t : Scope) :
  forallb (fun v => existsb (Scope_eqb v) (trainable_variables init_opt_graph))
          var_list = true ->
  existsb (Scope_eqb t) (trainable_variables init_opt_graph) = false ->
  existsb (Scope_eqb t) var_list = false.
Proof.
  intros H Ht. induction var_list as [|v l IH]; [reflexivity|].
  simpl in H. apply andb_true_iff in H. destruct H as [Hv Hl].
  simpl. rewrite (IH Hl).
  destruct t, v; try reflexivity; try discriminate Ht; discriminate Hv.
Qed.

(** C5, as amended.  Target networks are never directly trained: the
    three target networks are built non-trainable, so none of their
    variables is in the graph's trainable collection; the variable list
    of each optimizer is what [get_trainable_vars] gives for its online
    network; an optimizer step over trainable variables changes no
    target variable; and each of the seven session callables changes
    the target variables only by the target ops it holds: not at all for
    the three training callables, by assignment of the online value for
    [f_init_target] and [f_init_target2], by the soft update for
    [f_update_target] and [f_update_target2].  Over a call of
    [optimize_policy] the targets change by the soft updates only. *)
Theorem target_networks_change_by_target_ops_only
    (c : Callable) (s : @Session Slots)
    (itr : nat) (sd : SamplesData) (a : @Algo B Slots)
    (opt : @Optimizer Slots) (lr : Q) (sl : Slots) (loss : Store -> Q)
    (var_list : list Scope) (st : Store) :
  forallb (fun v => existsb (Scope_eqb v) (trainable_variables init_opt_graph))
          var_list = true ->
  let w0 := vars (sess a) in
  let w := vars (after_policy a) in
  let w' := vars (sess (snd (step itr sd a))) in
  map (fun t => existsb (Scope_eqb t) (trainable_variables init_opt_graph))
      target_scopes
  = [false; false; false]
  /\ policy_train_var_list = get_trainable_vars init_opt_graph Policy
  /\ qf_train_var_list = get_trainable_vars init_opt_graph Qf
  /\ qf2_train_var_list = get_trainable_vars init_opt_graph Qf2
  /\ map (fun t => read t (snd (minimize opt lr sl loss var_list st)))
         target_scopes
     = map (fun t => read t st) target_scopes
  /\ map (fun t =>
            read t (vars (run_callable policy_net qf_net qf2_net
                            policy_regularizable_vars qf_regularizable_vars
                            policy_optimizer qf_optimizer hp c s)))
         target_scopes
     = map (fun t =>
              apply_effect (target_effect c t) (tau hp)
                (read (online_of t) (vars s)) (read t (vars s)))
           target_scopes
  /\ target_policy w'
     = soft_update (tau hp) (policy w)
         (soft_update (tau hp) (policy w) (target_policy w0))
  /\ target_qf w' = soft_update (tau hp) (qf w) (target_qf w0)
  /\ target_qf2 w' = soft_update (tau hp) (qf2 w) (target_qf2 w0).
Proof.
  intros Hv. cbv zeta.
  split; [reflexivity|]. split; [reflexivity|]. split; [reflexivity|].
  split; [reflexivity|]. split; [|split].
  - unfold target_scopes. cbn [map].
    rewrite !minimize_frame
      by (apply trainable_only_no_target; [exact Hv | reflexivity]).
    reflexivity.
  - destruct c; cbn [run_callable];
      rewrite ?run_train_policy_vars, ?run_train_qf_vars,
        ?run_train_qf2_vars; reflexivity.
  - rewrite step_run. cbn [fst snd sess]. apply after_step_targets.
Qed.

End Facts.

(** ** The claims on the concrete instance *)

(** C2, as stated, fails: no period N >= 2 gates the actor update by
    [itr], and two consecutive calls both run the policy training call
    and both move the policy weights. *)
Lemma actor_update_is_not_delayed :
  let h := Toy.hyper (ClipAt 5) false in
  let a1 := snd (Toy.step h 0 Toy.algo0) in
  let a2 := snd (Toy.step h 1 a1) in
  (~ exists N : nat, (2 <= N)%nat /\
       forall itr : nat, (itr mod N <> 0)%nat ->
         existsb is_train_policy
           (new_calls (calls Toy.algo0)
              (calls (snd (Toy.step h itr Toy.algo0))))
         = false)
  /\ map phase_of (new_calls (calls Toy.algo0) (calls a1))
     = map phase_of (new_calls (calls a1) (calls a2))
  /\ filter is_train_policy (new_calls (calls Toy.algo0) (calls a1))
     = [CTrainPolicy [[1]; [2]]]
  /\ filter is_train_policy (new_calls (calls a1) (calls a2))
     = [CTrainPolicy [[1]; [2]]]
  /\ ~ Qeq_list (policy (vars (sess a1))) (policy (vars (sess Toy.algo0)))
  /\ ~ Qeq_list (policy (vars (sess a2))) (policy (vars (sess a1))).
Proof.
  cbv zeta. split; [|split; [|split; [|split; [|split]]]].
  - intros [N [HN H]].
    assert (E : (1 mod N <> 0)%nat) by (rewrite Nat.mod_small; lia).
    apply H in E. vm_compute in E. discriminate E.
  - vm_compute. reflexivity.
  - vm_compute. reflexivity.
  - vm_compute. reflexivity.
  - intros H. vm_compute in H. inversion H as [|x y l l' Hxy Hl]; subst.
    vm_compute in Hxy. discriminate Hxy.
  - intros H. vm_compute in H. inversion H as [|x y l l' Hxy Hl]; subst.
    vm_compute in Hxy. discriminate Hxy.
Qed.

Lemma soft_update_converges_witness :
  let after :=
    fun n => repeat_update n (get_target_ops Policy TargetPolicy (1 # 4))
               Toy.store0 in
  let d :=
    fun n => weight_dist (read Policy (after n)) (read TargetPolicy (after n))
               0 in
  (forall n, read Policy (after n) = read Policy Toy.store0)
  /\ (forall n, d (S n) == (1 - (1 # 4)) * d n)
  /\ (forall n, d (S n) <= d n)
  /\ (forall eps, 0 < eps ->
      exists N : nat, forall n : nat, (N <= n)%nat -> d n < eps).
Proof.
  apply (soft_update_converges (1 # 4) Policy TargetPolicy Toy.store0 0).
  - reflexivity.
  - unfold Qle. simpl. lia.
  - reflexivity.
  - simpl. lia.
  - simpl. lia.
Defined.

(** ** The further properties on the concrete instance *)

Lemma default_clip_range_clips_nothing_witness :
  let h := Toy.hyper ClipInf false in
  ret_ys (fst (Toy.step h 0 Toy.algo0))
  = map (raw_target Toy.policy_net Toy.qf_net Toy.qf2_net h
           (vars (sess Toy.algo0)))
        (batch_of Toy.rb_sample h Toy.algo0).
Proof.
  exact (default_clip_range_clips_nothing
           Toy.rb_sample Toy.policy_net Toy.qf_net Toy.qf2_net
           Toy.regularizable_vars Toy.regularizable_vars
           Toy.descent Toy.descent (Toy.hyper ClipInf false)
           0%nat tt Toy.algo0 eq_refl eq_refl).
Defined.

Lemma in_range_targets_are_not_clipped_witness :
  let h := Toy.hyper (ClipAt 5) false in
  Qeq_list
    (ret_ys (fst (Toy.step h 0 Toy.algo0)))
    (map (raw_target Toy.policy_net Toy.qf_net Toy.qf2_net h
            (vars (sess Toy.algo0)))
         (batch_of Toy.rb_sample h Toy.algo0)).
Proof.
  apply (in_range_targets_are_not_clipped
           Toy.rb_sample Toy.policy_net Toy.qf_net Toy.qf2_net
           Toy.regularizable_vars Toy.regularizable_vars
           Toy.descent Toy.descent (Toy.hyper (ClipAt 5) false)
           0%nat tt Toy.algo0).
  vm_compute. repeat constructor; intro H; discriminate H.
Defined.


Lemma targets_bounded_by_single_critic_targets_witness :
  let h := Toy.hyper (ClipAt 5) false in
  Forall2 Qle (ret_ys (fst (Toy.step h 0 Toy.algo0)))
    (map (qf_target Toy.policy_net Toy.qf_net h (vars (sess Toy.algo0)))
         (batch_of Toy.rb_sample h Toy.algo0))
  /\ Forall2 Qle (ret_ys (fst (Toy.step h 0 Toy.algo0)))
       (map (qf2_target Toy.policy_net Toy.qf2_net h (vars (sess Toy.algo0)))
            (batch_of Toy.rb_sample h Toy.algo0)).
Proof.
  apply (targets_bounded_by_single_critic_targets
           Toy.rb_sample Toy.policy_net Toy.qf_net Toy.qf2_net
           Toy.regularizable_vars Toy.regularizable_vars
           Toy.descent Toy.descent (Toy.hyper (ClipAt 5) false)
           0%nat tt Toy.algo0).
  unfold Qle. simpl. lia.
Defined.

Lemma action_loss_bounded_by_single_critic_loss_witness :
  let h := Toy.hyper (ClipAt 5) false in
  let obs := [[1]; [2]] in
  let next_action := get_action_sym Toy.policy_net Toy.store0 obs in
  - reduce_mean (get_qval_sym Toy.qf_net Toy.store0 obs next_action)
    + policy_weight_decay_term Toy.regularizable_vars h Toy.store0
  <= action_loss Toy.policy_net Toy.qf_net Toy.qf2_net
       Toy.regularizable_vars h Toy.store0 obs
  /\ - reduce_mean (get_q2val_sym Toy.qf2_net Toy.store0 obs next_action)
       + policy_weight_decay_term Toy.regularizable_vars h Toy.store0
     <= action_loss Toy.policy_net Toy.qf_net Toy.qf2_net
          Toy.regularizable_vars h Toy.store0 obs.
Proof.
  apply (action_loss_bounded_by_single_critic_loss
           Toy.policy_net Toy.qf_net Toy.qf2_net Toy.regularizable_vars
           (Toy.hyper (ClipAt 5) false) Toy.store0 [[1]; [2]]).
  discriminate.
Defined.

Lemma reported_qval_loss_nonneg_witness :
  0 <= ret_qval_loss (fst (Toy.step (Toy.hyper (ClipAt 5) false) 0 Toy.algo0)).
Proof.
  apply (reported_qval_loss_nonneg
           Toy.rb_sample Toy.policy_net Toy.qf_net Toy.qf2_net
           Toy.regularizable_vars Toy.regularizable_vars
           Toy.descent Toy.descent (Toy.hyper (ClipAt 5) false)
           0%nat tt Toy.algo0).
  simpl. discriminate.
Defined.

Lemma targets_depend_on_target_networks_only_witness :
  let h := Toy.hyper (ClipAt 5) false in
  let a' :=
    {| sess :=
         {| vars := {| policy := [7]; target_policy := [0]; qf := [3];
                       target_qf := [2]; qf2 := [9]; target_qf2 := [4] |};
            policy_slots := 5%nat; qf_slots := 6%nat; qf2_slots := 7%nat |};
       replay_buffer := Toy.buffer;
       calls := [CUpdateTarget] |} in
  ret_ys (fst (Toy.step h 0 Toy.algo0)) = ret_ys (fst (Toy.step h 0 a')).
Proof.
  cbv zeta.
  apply (targets_depend_on_target_networks_only
           Toy.rb_sample Toy.policy_net Toy.qf_net Toy.qf2_net
           Toy.regularizable_vars Toy.regularizable_vars
           Toy.descent Toy.descent (Toy.hyper (ClipAt 5) false)
           0%nat tt Toy.algo0); reflexivity.
Defined.

Lemma qval_loss_zero_iff_perfect_fit_witness :
  let h := Toy.hyper (ClipAt 5) false in
  qval_loss Toy.qf_net Toy.qf2_net Toy.regularizable_vars h Toy.store0
    [2] [[0]] [[2]] == 0
  <-> Qeq_list [2] (get_qval_sym Toy.qf_net Toy.store0 [[0]] [[2]])
      /\ Qeq_list [2] (get_q2val_sym Toy.qf2_net Toy.store0 [[0]] [[2]]).
Proof.
  apply (qval_loss_zero_iff_perfect_fit
           Toy.qf_net Toy.qf2_net Toy.regularizable_vars
           (Toy.hyper (ClipAt 5) false) Toy.store0 [2] [[0]] [[2]]).
  - unfold Qle. simpl. lia.
  - discriminate.
  - reflexivity.
  - reflexivity.
Defined.

(** ** The revised claims on the concrete instance *)



(** C5, as stated, fails: [f_init_target] is an operation that changes the
    target policy, and not by the soft update: from target [[0]] and
    online [[1]] it leaves [[1]], where the soft update with
    [tau = 1/4] gives [[1/4]]. *)
Lemma init_callable_overwrites_target :
  let h := Toy.hyper (ClipAt 5) false in
  let s := sess Toy.algo0 in
  let s' := run_callable Toy.policy_net Toy.qf_net Toy.qf2_net
              Toy.regularizable_vars Toy.regularizable_vars
              Toy.descent Toy.descent h F_init_target s in
  target_policy (vars s) = [0]
  /\ policy (vars s) = [1]
  /\ target_policy (vars s') = [1]
  /\ Qeq_list (soft_update (tau h) (policy (vars s)) (target_policy (vars s)))
              [1 # 4]
  /\ ~ Qeq_list (target_policy (vars s')) (target_policy (vars s))
  /\ ~ Qeq_list (target_policy (vars s'))
         (soft_update (tau h) (policy (vars s)) (target_policy (vars s))).
Proof.
  cbv zeta. repeat split; try reflexivity.
  - repeat constructor.
  - intros H. vm_compute in H. inversion H as [|x y l l' Hxy Hl]; subst.
    vm_compute in Hxy. discriminate Hxy.
  - intros H. vm_compute in H. inversion H as [|x y l l' Hxy Hl]; subst.
    vm_compute in Hxy. discriminate Hxy.
Qed.

Lemma target_networks_change_by_target_ops_only_witness :
  let h := Toy.hyper (ClipAt 5) false in
  let s := sess Toy.algo0 in
  map (fun t =>
         read t (vars (run_callable Toy.policy_net Toy.qf_net Toy.qf2_net
                         Toy.regularizable_vars Toy.regularizable_vars
                         Toy.descent Toy.descent h F_init_target2 s)))
      target_scopes
  = map (fun t =>
           apply_effect (target_effect F_init_target2 t) (tau h)
             (read (online_of t) (vars s)) (read t (vars s)))
        target_scopes.
Proof.
  cbv zeta.
  assert (Hv : forallb
                 (fun v => existsb (Scope_eqb v)
                             (trainable_variables init_opt_graph))
                 [Policy; Qf2] = true) by reflexivity.
  exact (proj1 (proj2 (proj2 (proj2 (proj2 (proj2
           (target_networks_change_by_target_ops_only
              Toy.rb_sample Toy.policy_net Toy.qf_net Toy.qf2_net
              Toy.regularizable_vars Toy.regularizable_vars
              Toy.descent Toy.descent (Toy.hyper (ClipAt 5) false)
              F_init_target2 (sess Toy.algo0) 0%nat tt Toy.algo0
              Toy.descent (1 # 2) 0%nat (fun _ => 1) [Policy; Qf2]
              Toy.store0 Hv))))))).
Defined.

(** C7.  At this input the claim and the code part: the first critic's
    own loss is 18 and the second's is 4, so the claim has [qval_loss = 4]
    and the second critic's prediction [[0; -2]] returned; the code
    returns 22, the joint loss both training calls fetch, and the first
    critic's prediction [[2; 2]]. *)
Lemma optimize_policy_reports_joint_loss :
  let h := Toy.hyper (ClipAt 5) false in
  let r := fst (Toy.step h 0 Toy.algo0) in
  let inputs := [[1]; [2]] in
  let actions := [[1]; [0]] in
  let qval := get_qval_sym Toy.qf_net Toy.store0 inputs actions in
  let q2val := get_q2val_sym Toy.qf2_net Toy.store0 inputs actions in
  Qeq_list (ret_ys r) [2; -4]
  /\ Qeq_list qval [2; 2]
  /\ Qeq_list q2val [0; -2]
  /\ critic_loss (ret_ys r) qval == 18
  /\ critic_loss (ret_ys r) q2val == 4
  /\ ret_qval_loss r == 22
  /\ ~ ret_qval_loss r == Qmin 18 4
  /\ Qeq_list (ret_qval r) qval
  /\ ~ Qeq_list (ret_qval r) q2val.
Proof.
  cbv zeta.
  repeat match goal with |- _ /\ _ => split end.
  - vm_compute. repeat constructor.
  - vm_compute. repeat constructor.
  - vm_compute. repeat constructor.
  - vm_compute. reflexivity.
  - vm_compute. reflexivity.
  - vm_compute. reflexivity.
  - intros H. vm_compute in H. discriminate H.
  - vm_compute. repeat constructor.
  - intros H. vm_compute in H. inversion H as [|x y l l' Hxy Hl]; subst.
    vm_compute in Hxy. discriminate Hxy.
Qed.
